(** * The Xcode MCP HTTP bridge: routing, sessions, startup and shutdown

    A shallow embedding of [startMcpBridge] as found, in two variants, in
    [src/src/xcode-mcp.ts] and in the second document of
    [src/xcode-types.ts].  The request listener is modelled as a pure
    function from the registry and the request to an outcome; the
    effects of the surrounding lifecycle (connecting the backend,
    binding the listener, closing resources) are modelled as logs of
    calls; the life of the registry is a step function over events. *)

From Stdlib Require Import List String Ascii ZArith QArith Qround Bool Lia.
Import ListNotations.
Open Scope string_scope.
Open Scope Z_scope.

(** ** JavaScript values the bridge looks at *)

#[local] Set Warnings "-register-all".

(** A JSON value, as produced by [JSON.parse] and consumed by
    [JSON.stringify]. *)
Inductive json : Type :=
| JNull
| JBool (b : bool)
| JNum (n : Z)
| JStr (s : string)
| JArr (items : list json)
| JObj (fields : list (string * json)).

(** A JavaScript [number]: the three non-finite values, or a finite
    value (every finite double is a rational). *)
Inductive jsnum : Type :=
| NaN
| PosInfinity
| NegInfinity
| Finite (q : Q).

(** [Number.isInteger]: finite and equal to its own floor. *)
Definition Number_isInteger (x : jsnum) : bool :=
  match x with
  | Finite q => Qeq_bool q (inject_Z (Qfloor q))
  | _ => false
  end.

(** [x < y] on numbers where [y] is an integer literal; every
    comparison with NaN is false. *)
Definition js_lt_int (x : jsnum) (k : Z) : bool :=
  match x with
  | NaN => false
  | PosInfinity => false
  | NegInfinity => true
  | Finite q => match Qcompare q (inject_Z k) with Lt => true | _ => false end
  end.

Definition js_gt_int (x : jsnum) (k : Z) : bool :=
  match x with
  | NaN => false
  | PosInfinity => true
  | NegInfinity => false
  | Finite q => match Qcompare q (inject_Z k) with Gt => true | _ => false end
  end.

(** A thrown JavaScript [Error], with its [message]. *)
Inductive exn : Type :=
| Error (message : string).

Definition exn_message (e : exn) : string :=
  match e with Error m => m end.

(** Truthiness of an optional string: [undefined] and [''] are falsy. *)
Definition truthy (s : option string) : bool :=
  match s with
  | Some v => negb (String.eqb v "")
  | None => false
  end.

(** [String.prototype.toUpperCase], on the ASCII letters an HTTP method
    token is made of. *)
Definition upper_ascii (c : ascii) : ascii :=
  let n := nat_of_ascii c in
  if andb (Nat.leb 97 n) (Nat.leb n 122) then ascii_of_nat (n - 32) else c.

Fixpoint toUpperCase (s : string) : string :=
  match s with
  | EmptyString => EmptyString
  | String c rest => String (upper_ascii c) (toUpperCase rest)
  end.

(** ** The backend client and the per-session protocol server *)

Definition BRIDGE_NAME : string := "xcode-mcp-http-bridge".
Definition BRIDGE_VERSION : string := "1.0.0".

(** What awaiting a backend call yields: its response, or its error. *)
Inductive reply : Type :=
| Resolved (result : json)
| Rejected (e : exn).

(** The two operations of the SDK [Client] the bridge uses; [params] is
    [request.params], which may be [undefined]. *)
Record Client : Type := {
  listTools : option json -> reply;
  callTool : option json -> reply
}.

(** A protocol request as the SDK hands it to a request handler, that
    is, after the SDK has checked it against the handler's schema. *)
Record rpc_request : Type := {
  rpc_method : string;
  params : option json
}.

(** An SDK [Server]: its identity, its declared capabilities and the
    request handlers registered with [setRequestHandler]. *)
Record Server : Type := {
  server_name : string;
  server_version : string;
  tools_listChanged : bool;
  on_ListTools : rpc_request -> reply;
  on_CallTool : rpc_request -> reply
}.

Definition createSessionServer (upstream : Client) : Server :=
  {| server_name := BRIDGE_NAME;
     server_version := BRIDGE_VERSION;
     tools_listChanged := true;
     on_ListTools := fun request => listTools upstream (params request);
     on_CallTool := fun request => callTool upstream (params request) |}.

(** ** The session registry: a JavaScript [Map], insertion ordered *)

(** One registry entry.  Objects are identified by the number they got
    when they were constructed; the server object also carries its
    handlers. *)
Record TransportSession : Type := {
  server_oid : nat;
  server : Server;
  transport : nat
}.

Module SessionMap.

Definition t : Type := list (string * TransportSession).

Definition empty : t := [].

Fixpoint get (m : t) (k : string) : option TransportSession :=
  match m with
  | [] => None
  | (k', v) :: rest => if String.eqb k k' then Some v else get rest k
  end.

Definition has (m : t) (k : string) : bool :=
  match get m k with Some _ => true | None => false end.

(** [Map.prototype.set]: an existing key keeps its place and gets the
    new value; a new key goes last. *)
Fixpoint set (m : t) (k : string) (v : TransportSession) : t :=
  match m with
  | [] => [(k, v)]
  | (k', v') :: rest =>
      if String.eqb k k' then (k', v) :: rest else (k', v') :: set rest k v
  end.

Fixpoint delete (m : t) (k : string) : t :=
  match m with
  | [] => []
  | (k', v') :: rest =>
      if String.eqb k k' then rest else (k', v') :: delete rest k
  end.

Definition values (m : t) : list TransportSession := map snd m.

Definition keys (m : t) : list string := map fst m.

Definition clear (m : t) : t := [].

End SessionMap.

(** ** HTTP requests and responses, as the request listener sees them *)

(** [req.url], classified by what [new URL(req.url, endpoint)] makes of
    it: absent or empty; rejected by the URL parser (which throws); or
    parsed, with the given [pathname]. *)
Inductive url_input : Type :=
| UrlMissing
| UrlInvalid (message : string)
| UrlPath (pathname : string).

(** The request's byte stream, classified by what [parseJsonBody] makes
    of it: no chunk at all; only white space; a text [JSON.parse]
    accepts, with its value; a text on which [JSON.parse] throws. *)
Inductive body_input : Type :=
| NoChunks
| BlankText
| JsonText (value : json)
| MalformedText (message : string).

(** [req.headers['mcp-session-id']]: a header is a string, an array of
    strings, or absent. *)
Inductive header_value : Type :=
| HeaderAbsent
| HeaderString (s : string)
| HeaderArray (values : list string).

Record request : Type := {
  req_url : url_input;
  req_method : option string;
  req_session_header : header_value;
  req_body : body_input
}.

Inductive response_body : Type :=
| Text (s : string)
| Stringified (value : json).

(** A response the listener itself ends; [statusCode] is 200 unless the
    code assigns it. *)
Record response : Type := {
  statusCode : Z;
  content_type : option string;
  body : response_body
}.

(** What the listener does with a request: answer it, hand it to the
    transport of a registered session (with the parsed body on POST,
    without a body argument on GET and DELETE), or build a new session
    and hand the initialization body to its fresh transport. *)
Inductive outcome : Type :=
| Respond (r : response)
| HandleRequest (session : TransportSession) (parsed : option (option json))
| NewSession (parsed : option json).

Definition normalizePath (value : string) : string :=
  if negb (String.prefix "/" value) then "/" ++ value else value.

(** [parseJsonBody]: [undefined] for an empty or blank body, the parsed
    value otherwise; a [JSON.parse] failure propagates. *)
Definition parseJsonBody (b : body_input) : exn + option json :=
  match b with
  | NoChunks => inr None
  | BlankText => inr None
  | JsonText v => inr (Some v)
  | MalformedText m => inl (Error m)
  end.

Definition error_envelope (code : Z) (message : string) : json :=
  JObj [("jsonrpc", JStr "2.0");
        ("error", JObj [("code", JNum code); ("message", JStr message)]);
        ("id", JNull)].

Definition sessionId_of (h : header_value) : option string :=
  match h with
  | HeaderString s => Some s
  | HeaderArray l => hd_error l
  | HeaderAbsent => None
  end.

Section Listener.

(** The configured endpoint path, the serialized endpoint URL
    ([endpoint.toString()]) and the SDK's [isInitializeRequest]. *)
Variable path : string.
Variable endpoint_href : string.
Variable isInitializeRequest : option json -> bool.

(** The body of the listener's [try] block. *)
Definition listener_try (sessions : SessionMap.t) (req : request) : exn + outcome :=
  match req_url req with
  | UrlMissing =>
      inr (Respond {| statusCode := 400; content_type := None; body := Text "Missing URL" |})
  | UrlInvalid m => inl (Error m)
  | UrlPath pathname =>
      if String.eqb pathname "/health" then
        inr (Respond {| statusCode := 200;
                        content_type := Some "application/json";
                        body := Stringified (JObj [("ok", JBool true);
                                                   ("endpoint", JStr endpoint_href)]) |})
      else if negb (String.eqb pathname (normalizePath path)) then
        inr (Respond {| statusCode := 404; content_type := None; body := Text "Not found" |})
      else
        let method := match req_method req with
                      | Some m => toUpperCase m
                      | None => ""
                      end in
        match (if String.eqb method "POST" then parseJsonBody (req_body req)
               else inr None) with
        | inl e => inl e
        | inr parsed =>
            let sessionId := sessionId_of (req_session_header req) in
            (* [sessionId && sessions.has(sessionId)], then
               [sessions.get(sessionId)!] *)
            let known :=
              match sessionId with
              | Some sid =>
                  if andb (truthy sessionId) (SessionMap.has sessions sid)
                  then SessionMap.get sessions sid
                  else None
              | None => None
              end in
            if String.eqb method "POST" then
              match known with
              | Some session => inr (HandleRequest session (Some parsed))
              | None =>
                  if andb (negb (truthy sessionId)) (isInitializeRequest parsed) then
                    inr (NewSession parsed)
                  else
                    inr (Respond
                           {| statusCode := 400;
                              content_type := Some "application/json";
                              body := Stringified
                                        (error_envelope (-32000)
                                           "Bad Request: missing valid MCP session") |})
              end
            else if orb (String.eqb method "GET") (String.eqb method "DELETE") then
              match known with
              | Some session => inr (HandleRequest session None)
              | None =>
                  inr (Respond {| statusCode := 400; content_type := None;
                                  body := Text "Invalid or missing MCP session ID" |})
              end
            else
              inr (Respond {| statusCode := 405; content_type := None;
                              body := Text "Method not allowed" |})
        end
  end.

(** The [catch] block: a 500 envelope, unless headers already went
    out. *)
Definition listener_catch (e : exn) (headersSent : bool) : option response :=
  if negb headersSent then
    Some {| statusCode := 500;
            content_type := Some "application/json";
            body := Stringified (error_envelope (-32603) (exn_message e)) |}
  else None.

(** The listener up to the point where it answers or hands over.  An
    exception raised here is raised before anything was written, so
    the [catch] block always answers. *)
Definition listener (sessions : SessionMap.t) (req : request) : outcome :=
  match listener_try sessions req with
  | inr o => o
  | inl e =>
      match listener_catch e false with
      | Some r => Respond r
      | None => Respond {| statusCode := 500; content_type := None; body := Text "" |}
      end
  end.

End Listener.

(** ** Lifecycle: startup and shutdown *)

(** The two copies of the bridge: [src/src/xcode-mcp.ts], and the copy
    with the [saveEndpoint] option (second document of
    [src/xcode-types.ts]). *)
Inductive variant : Type :=
| Plain
| Saving.

Record McpBridgeStartOptions : Type := {
  host : string;
  port : jsnum;
  path : string;
  saveEndpoint : bool   (* read by the [Saving] variant only *)
}.

(** The calls the lifecycle code makes on its collaborators, in the
    order it makes them. *)
Inductive call : Type :=
| upstream_connect
| upstream_close
| upstreamTransport_close
| readConfig
| writeConfig (endpoint : string)
| http_createServer
| process_once (signal : string)
| server_listen (p : jsnum) (h : string)
| sessionServer_close (oid : nat)
| transport_close (oid : nat)
| sessions_clear
| server_close
| process_exit (code : Z).

(** What the collaborators answer during one run: whether connecting
    the backend fails, whether writing the configuration fails
    ([readConfig] swallows its own failures), whether binding fails,
    and which [close] calls reject. *)
Record environment : Type := {
  connect_error : option exn;
  config_error : option exn;
  listen_error : option exn;
  close_rejects : call -> bool
}.

Definition newline : string := String (ascii_of_nat 10) EmptyString.

Definition connect_diagnostic (details : string) : string :=
  String.concat newline
    ["Unable to connect to Xcode via `xcrun mcpbridge`.";
     "Check the following and try again:";
     "1) Xcode 26.3 or later is installed.";
     "2) Xcode is open.";
     "3) `xcode-select -p` points to your Xcode developer directory.";
     "Original error: " ++ details].

(** Substring test, to speak about what a message mentions. *)
Fixpoint contains (needle s : string) : bool :=
  orb (String.prefix needle s)
      (match s with
       | EmptyString => false
       | String _ rest => contains needle rest
       end).

(** A message enumerates the likely causes when it names all three. *)
Definition enumerates_causes (message : string) : bool :=
  andb (contains "Xcode 26.3 or later is installed" message)
       (andb (contains "Xcode is open" message)
             (contains "`xcode-select -p` points to your Xcode developer directory" message)).

Section Lifecycle.

(** Template-literal rendering of a number, and [new URL(text)]: it
    throws on a text it cannot parse (an unusable host, say), or gives
    the URL, whose serialization [toString()] is what is used. *)
Variable Number_toString : jsnum -> string.
Variable URL_href : string -> exn + string.

(** The text handed to [new URL]. *)
Definition endpoint_text (options : McpBridgeStartOptions) : string :=
  "http://" ++ host options ++ ":" ++ Number_toString (port options)
  ++ normalizePath (path options).

Definition invalid_port_message (p : jsnum) : string :=
  "Invalid port '" ++ Number_toString p ++ "'. Use an integer between 1 and 65535.".

Definition port_rejected (p : jsnum) : bool :=
  orb (negb (Number_isInteger p)) (orb (js_lt_int p 1) (js_gt_int p 65535)).

(** [startMcpBridge] up to the point where the listener is bound: the
    calls made, and either the thrown error or the endpoint served. *)
Definition startMcpBridge (v : variant) (options : McpBridgeStartOptions)
    (env : environment) : list call * (exn + string) :=
  if port_rejected (port options) then
    ([], inl (Error (invalid_port_message (port options))))
  else
    match URL_href (endpoint_text options) with
    | inl e => ([], inl e)
    | inr endpoint =>
        let listen :=
          [http_createServer; process_once "SIGINT"; process_once "SIGTERM";
           server_listen (port options) (host options)] in
        let serve (before : list call) :=
          match listen_error env with
          | Some e => ((before ++ listen)%list, inl e)
          | None => ((before ++ listen)%list, inr endpoint)
          end in
        match v with
        | Plain =>
            match connect_error env with
            | Some error =>
                ([upstream_connect; upstream_close; upstreamTransport_close],
                 inl (Error (connect_diagnostic (exn_message error))))
            | None => serve [upstream_connect]
            end
        | Saving =>
            match connect_error env with
            | Some error => ([upstream_connect], inl error)
            | None =>
                if saveEndpoint options then
                  match config_error env with
                  | Some e =>
                      ([upstream_connect; readConfig; writeConfig endpoint], inl e)
                  | None => serve [upstream_connect; readConfig; writeConfig endpoint]
                  end
                else serve [upstream_connect]
            end
        end
    end.

End Lifecycle.

(** ** The life of the registry *)

(** What the SDK transport does with a request handed to it.  A fresh
    transport that accepts the initialization calls
    [sessionIdGenerator], that is [randomUUID()], keeps the value as its
    [sessionId] and calls [onsessioninitialized] with it; a transport
    may close itself, as it does on DELETE; otherwise it just answers. *)
Inductive sdk_reaction : Type :=
| Answers
| Initializes (uuid : string)
| Closes.

(** What happens to a running bridge: a request arrives (with what the
    SDK transport will do if the request reaches one), a transport
    closes on its own (client gone, internal close), or the backend
    channel reports an asynchronous error to [upstream.onerror]. *)
Inductive event : Type :=
| Incoming (req : request) (reaction : sdk_reaction)
| TransportClosed (oid : nat)
| UpstreamError (message : string).

(** The running bridge.  [sessions] is the registry of the code;
    [transport_sessionId] holds [transport.sessionId] of every
    initialized transport; [next_oid] numbers the objects constructed.
    [issued], [closed] and [closed_servers] are history: the ids
    [randomUUID] has returned, the ids whose transport has fired
    [onclose], and the servers [onclose] has closed. *)
Record bridge : Type := {
  sessions : SessionMap.t;
  transport_sessionId : list (nat * string);
  next_oid : nat;
  issued : list string;
  closed : list string;
  closed_servers : list nat
}.

Definition started : bridge :=
  {| sessions := SessionMap.empty;
     transport_sessionId := [];
     next_oid := 0;
     issued := [];
     closed := [];
     closed_servers := [] |}.

Fixpoint sessionId_of_transport (table : list (nat * string)) (oid : nat)
    : option string :=
  match table with
  | [] => None
  | (t, sid) :: rest => if Nat.eqb oid t then Some sid else sessionId_of_transport rest oid
  end.

(** The values [randomUUID] returns along a run, in order. *)
Fixpoint draws (tr : list event) : list string :=
  match tr with
  | [] => []
  | Incoming _ (Initializes uuid) :: rest => uuid :: draws rest
  | _ :: rest => draws rest
  end.

(** A UUID in its textual form has 36 characters. *)
Definition is_uuid (s : string) : bool := Nat.eqb (String.length s) 36.

Section Machine.

Variable v : variant.
Variable upstream : Client.
Variable path : string.
Variable endpoint_href : string.
Variable isInitializeRequest : option json -> bool.

(** [transport.onclose] of the transport numbered [oid]. *)
Definition onclose (b : bridge) (oid : nat) : bridge :=
  let closedSessionId := sessionId_of_transport (transport_sessionId b) oid in
  match closedSessionId with
  | None => b
  | Some sid =>
      if negb (truthy closedSessionId) then b
      else
        match v with
        | Plain =>
            {| sessions := SessionMap.delete (sessions b) sid;
               transport_sessionId := transport_sessionId b;
               next_oid := next_oid b;
               issued := issued b;
               closed := sid :: closed b;
               closed_servers := closed_servers b |}
        | Saving =>
            match SessionMap.get (sessions b) sid with
            | Some session =>
                {| sessions := SessionMap.delete (sessions b) sid;
                   transport_sessionId := transport_sessionId b;
                   next_oid := next_oid b;
                   issued := issued b;
                   closed := sid :: closed b;
                   closed_servers := server_oid session :: closed_servers b |}
            | None =>
                {| sessions := sessions b;
                   transport_sessionId := transport_sessionId b;
                   next_oid := next_oid b;
                   issued := issued b;
                   closed := sid :: closed b;
                   closed_servers := closed_servers b |}
            end
        end
  end.

(** The POST branch that builds a session: a transport and a server
    are constructed and connected; the pair is registered when, and
    only when, the transport reports its session id. *)
Definition new_session (b : bridge) (reaction : sdk_reaction) : bridge :=
  let n := next_oid b in
  let mcpServer := createSessionServer upstream in
  match reaction with
  | Initializes newSessionId =>
      {| sessions := SessionMap.set (sessions b) newSessionId
                       {| server_oid := n; server := mcpServer; transport := n |};
         transport_sessionId := (n, newSessionId) :: transport_sessionId b;
         next_oid := S n;
         issued := newSessionId :: issued b;
         closed := closed b;
         closed_servers := closed_servers b |}
  | _ =>
      {| sessions := sessions b;
         transport_sessionId := transport_sessionId b;
         next_oid := S n;
         issued := issued b;
         closed := closed b;
         closed_servers := closed_servers b |}
  end.

Definition step (b : bridge) (e : event) : bridge :=
  match e with
  | Incoming req reaction =>
      match listener path endpoint_href isInitializeRequest (sessions b) req with
      | Respond _ => b
      | HandleRequest session _ =>
          match reaction with
          | Closes => onclose b (transport session)
          | _ => b
          end
      | NewSession _ => new_session b reaction
      end
  | TransportClosed oid => onclose b oid
  | UpstreamError _ => b   (* [console.error] only *)
  end.

Definition run (tr : list event) : bridge := fold_left step tr started.

End Machine.

(** ** Shutdown *)

(** The running process at shutdown: the bridge, the transports that
    are closed, and the calls the bridge's code has made, in order.

    The SDK's servers and transports are not part of the repository.
    Their [close] is taken as the SDK documents it: [server.close()]
    closes the transport the server is connected to; closing a
    transport that is open runs its [onclose] callback, here the
    handler the bridge installed; closing a transport that is already
    closed does nothing.  In a registry entry the server is the one
    connected to the entry's transport. *)
Record process : Type := {
  proc_bridge : bridge;
  proc_closed : list nat;
  proc_calls : list call
}.

Definition log (c : call) (p : process) : process :=
  {| proc_bridge := proc_bridge p;
     proc_closed := proc_closed p;
     proc_calls := (proc_calls p ++ [c])%list |}.

Definition is_closed (p : process) (t : nat) : bool :=
  existsb (Nat.eqb t) (proc_closed p).

Section Shutdown.

Variable v : variant.
Variable env : environment.

(** [x.close().catch(() => undefined)]: the call is made; when it
    rejects, nothing was closed and the rejection is dropped. *)
Definition closing (c : call) (effect : process -> process) (p : process) : process :=
  if close_rejects env c then log c p else effect (log c p).

(** [transport.close()] on the transport numbered [t], with the
    [onclose] handler of the bridge: in the [Saving] variant the
    handler first closes the server registered under the transport's
    session id, which in turn closes that server's transport.  [fuel]
    bounds this nesting. *)
Fixpoint close_transport (fuel : nat) (t : nat) (p : process) : process :=
  match fuel with
  | O => p
  | S fuel' =>
      if is_closed p t then p
      else
        let p1 := {| proc_bridge := proc_bridge p;
                     proc_closed := t :: proc_closed p;
                     proc_calls := proc_calls p |} in
        let b := proc_bridge p1 in
        let closedSessionId := sessionId_of_transport (transport_sessionId b) t in
        let p2 :=
          match v, closedSessionId with
          | Saving, Some sid =>
              if negb (truthy closedSessionId) then p1
              else
                match SessionMap.get (sessions b) sid with
                | Some closed_ =>
                    closing (sessionServer_close (server_oid closed_))
                      (close_transport fuel' (transport closed_)) p1
                | None => p1
                end
          | _, _ => p1
          end in
        {| proc_bridge := onclose v (proc_bridge p2) t;
           proc_closed := proc_closed p2;
           proc_calls := proc_calls p2 |}
  end.

(** Enough fuel for every chain of nested closes: one more than the
    transports that have a session id, plus one. *)
Definition fuel_of (p : process) : nat :=
  S (S (List.length (transport_sessionId (proc_bridge p)))).

(** The body of the [for] loop of [cleanup], for one registry entry. *)
Definition cleanup_session (fuel : nat) (s : TransportSession) (p : process)
    : process :=
  match v with
  | Plain =>
      closing (sessionServer_close (server_oid s)) (close_transport fuel (transport s)) p
  | Saving =>
      closing (sessionServer_close (server_oid s)) (close_transport fuel (transport s))
        (closing (transport_close (transport s)) (close_transport fuel (transport s)) p)
  end.

(** [for (... of sessions.values())]: the iteration is live, an entry
    deleted before its turn is not visited. *)
Fixpoint for_of_sessions (pending : list (string * TransportSession))
    (body : TransportSession -> process -> process) (p : process) : process :=
  match pending with
  | [] => p
  | (sid, s) :: rest =>
      for_of_sessions rest body
        (if SessionMap.has (sessions (proc_bridge p)) sid then body s p else p)
  end.

(** The loop of [cleanup]. *)
Definition drain (p : process) : process :=
  for_of_sessions (sessions (proc_bridge p)) (cleanup_session (fuel_of p)) p.

(** [sessions.clear()] *)
Definition clear_sessions (p : process) : process :=
  {| proc_bridge :=
       {| sessions := SessionMap.clear (sessions (proc_bridge p));
          transport_sessionId := transport_sessionId (proc_bridge p);
          next_oid := next_oid (proc_bridge p);
          issued := issued (proc_bridge p);
          closed := closed (proc_bridge p);
          closed_servers := closed_servers (proc_bridge p) |};
     proc_closed := proc_closed p;
     proc_calls := proc_calls p |}.

(** [cleanup]: the loop, [sessions.clear()], [server.close] wrapped in
    a promise that resolves whatever the listener reports, then the
    backend client and its transport. *)
Definition cleanup (p : process) : process :=
  closing upstreamTransport_close (fun q => q)
    (closing upstream_close (fun q => q)
       (log server_close (log sessions_clear (clear_sessions (drain p))))).

(** The signal handler: [cleanup().catch(...).finally(() => process.exit(0))]. *)
Definition on_signal (p : process) : process := log (process_exit 0) (cleanup p).

End Shutdown.

(** The process when the signal arrives: the bridge as it stands, the
    transports closed so far, no call made yet. *)
Definition at_signal (b : bridge) (closed_so_far : list nat) : process :=
  {| proc_bridge := b; proc_closed := closed_so_far; proc_calls := [] |}.

(** * Properties *)

(** ** Port validation *)

(** The ports the specification admits: integers from 1 to 65535. *)
Definition integer_port (p : jsnum) : Prop :=
  exists n : Z, 1 <= n <= 65535 /\ exists q : Q, p = Finite q /\ Qeq q (inject_Z n).

Lemma Number_isInteger_spec (q : Q) :
  Number_isInteger (Finite q) = true <-> exists n : Z, Qeq q (inject_Z n).
Proof.
  simpl. rewrite Qeq_bool_iff. split.
  - intros H. exists (Qfloor q). exact H.
  - intros [n Hn]. rewrite Hn at 1. rewrite Hn. rewrite Qfloor_Z. reflexivity.
Qed.

Lemma Qcompare_inject_Z (n k : Z) :
  Qcompare (inject_Z n) (inject_Z k) = Z.compare n k.
Proof. unfold Qcompare. simpl. rewrite !Z.mul_1_r. reflexivity. Qed.

Lemma port_rejected_spec (p : jsnum) :
  port_rejected p = false <-> integer_port p.
Proof.
  unfold port_rejected, integer_port. split.
  - intros H.
    apply orb_false_iff in H as [Hi H]. apply orb_false_iff in H as [Hlo Hhi].
    apply negb_false_iff in Hi.
    destruct p as [ | | | q]; try discriminate.
    apply Number_isInteger_spec in Hi as [n Hn].
    exists n. split; [ | exists q; split; [reflexivity | exact Hn] ].
    unfold js_lt_int in Hlo. unfold js_gt_int in Hhi.
    rewrite Hn, Qcompare_inject_Z in Hlo, Hhi.
    destruct (Z.compare_spec n 1); destruct (Z.compare_spec n 65535);
      try discriminate; lia.
  - intros [n [[Hlo Hhi] [q [-> Hq]]]].
    assert (Hi : Number_isInteger (Finite q) = true)
      by (apply Number_isInteger_spec; exists n; exact Hq).
    rewrite Hi. unfold js_lt_int, js_gt_int.
    rewrite Hq, !Qcompare_inject_Z.
    destruct (Z.compare_spec n 1); destruct (Z.compare_spec n 65535);
      try reflexivity; lia.
Qed.

(** A call that creates or binds the HTTP listener. *)
Definition touches_listener (c : call) : bool :=
  match c with
  | http_createServer | server_listen _ _ => true
  | _ => false
  end.

Example port_0_rejected : port_rejected (Finite 0) = true.
Proof. reflexivity. Qed.

Example port_minus_1_rejected : port_rejected (Finite (-1)) = true.
Proof. reflexivity. Qed.

Example port_65536_rejected : port_rejected (Finite 65536) = true.
Proof. reflexivity. Qed.

Example port_NaN_rejected : port_rejected NaN = true.
Proof. reflexivity. Qed.

Example port_fraction_rejected : port_rejected (Finite (7 # 2)) = true.
Proof. reflexivity. Qed.

Example port_8080_accepted : port_rejected (Finite 8080) = false.
Proof. reflexivity. Qed.

(** C8.  In both variants the first check of [startMcpBridge] lets a
    port through exactly when it is an integer from 1 to 65535.  For
    every other port the function throws the invalid-port error having
    made no call at all: no listener is created or bound.  For a port
    that is let through it goes on: to [new URL], whose failure it
    lets through (again without any call), and from there to the
    backend connection, its first call. *)
Theorem startMcpBridge_validates_port
    (Number_toString : jsnum -> string)
    (URL_href : string -> exn + string)
    (v : variant) (options : McpBridgeStartOptions) (env : environment) :
  (port_rejected (port options) = false <-> integer_port (port options))
  /\ (~ integer_port (port options) ->
      startMcpBridge Number_toString URL_href v options env
      = ([], inl (Error (invalid_port_message Number_toString (port options)))))
  /\ (integer_port (port options) ->
      match URL_href (endpoint_text Number_toString options) with
      | inl e => startMcpBridge Number_toString URL_href v options env = ([], inl e)
      | inr _ =>
          exists rest,
            fst (startMcpBridge Number_toString URL_href v options env)
            = upstream_connect :: rest
      end).
Proof.
  split; [apply port_rejected_spec | ].
  rewrite <- port_rejected_spec. unfold startMcpBridge.
  destruct (port_rejected (port options)) eqn:Hp.
  - split; [reflexivity | discriminate].
  - split; [intros H; exfalso; apply H; reflexivity | ].
    intros _.
    destruct (URL_href (endpoint_text Number_toString options)) as [e | endpoint];
      [reflexivity | ].
    destruct v, (connect_error env), (saveEndpoint options),
      (config_error env), (listen_error env); simpl; eexists; reflexivity.
Qed.

(** ** The health path *)

(** The answer to a health probe. *)
Definition health_response (endpoint_href : string) : response :=
  {| statusCode := 200;
     content_type := Some "application/json";
     body := Stringified (JObj [("ok", JBool true); ("endpoint", JStr endpoint_href)]) |}.

(** C9.  A request whose path is [/health] is answered 200 with
    [{ok: true, endpoint}], whatever the registry holds; in particular
    after any run of the bridge, with whatever sessions were opened and
    closed and whatever errors the backend channel reported.  The
    listener has no access to the backend connection on this path. *)
Theorem health_ignores_backend_and_sessions
    (v : variant) (upstream : Client) (path endpoint_href : string)
    (isInitializeRequest : option json -> bool)
    (method : option string) (header : header_value) (b : body_input) :
  let req := {| req_url := UrlPath "/health"; req_method := method;
                req_session_header := header; req_body := b |} in
  (forall registry : SessionMap.t,
     listener path endpoint_href isInitializeRequest registry req
     = Respond (health_response endpoint_href))
  /\
  (forall tr : list event,
     listener path endpoint_href isInitializeRequest
       (sessions (run v upstream path endpoint_href isInitializeRequest tr)) req
     = Respond (health_response endpoint_href)).
Proof.
  intros req.
  assert (H : forall registry : SessionMap.t,
             listener path endpoint_href isInitializeRequest registry req
             = Respond (health_response endpoint_href)) by reflexivity.
  split; [exact H | intros tr; apply H].
Qed.

(** C10.  The health path is decided before the method is looked at and
    before the body is read: a request to [/health] gets the 200 health
    answer for every method, present or not, and every body, including
    one that is not JSON; it is neither answered 405 nor handed to a
    session.  The listener is the same in both variants. *)
Theorem health_before_method_and_body
    (path endpoint_href : string) (isInitializeRequest : option json -> bool)
    (registry : SessionMap.t) (req : request) :
  req_url req = UrlPath "/health" ->
  listener_try path endpoint_href isInitializeRequest registry req
  = inr (Respond (health_response endpoint_href))
  /\ listener path endpoint_href isInitializeRequest registry req
     = Respond (health_response endpoint_href)
  /\ statusCode (health_response endpoint_href) = 200.
Proof.
  intros Hurl. unfold listener, listener_try. rewrite Hurl. simpl.
  repeat split; reflexivity.
Qed.

Definition put_health_malformed : request :=
  {| req_url := UrlPath "/health"; req_method := Some "PUT";
     req_session_header := HeaderString "no-such-session";
     req_body := MalformedText "Unexpected token" |}.

Lemma health_before_method_and_body_witness :
  listener "/mcp" "http://127.0.0.1:8080/mcp" (fun _ => false) [] put_health_malformed
  = Respond (health_response "http://127.0.0.1:8080/mcp").
Proof.
  apply (health_before_method_and_body "/mcp" "http://127.0.0.1:8080/mcp"
           (fun _ => false) [] put_health_malformed).
  reflexivity.
Defined.

(** ** Failure to connect the backend *)

Definition is_connect (c : call) : bool :=
  match c with upstream_connect => true | _ => false end.

Lemma connect_diagnostic_enumerates (details : string) :
  enumerates_causes (connect_diagnostic details) = true.
Proof. reflexivity. Qed.

(** C5, as the code has it.  When connecting the backend fails, both
    variants abort the startup: the call rejects, the connection was
    attempted exactly once and no listener was created or bound.  The
    [Plain] variant closes the client and its transport and throws the
    checklist that names the three likely causes, followed by the
    original message; the [Saving] variant lets the connection error
    through as it is.  (The connection is attempted once the port and
    the endpoint URL were accepted.) *)
Theorem connect_failure_aborts_startup
    (Number_toString : jsnum -> string)
    (URL_href : string -> exn + string)
    (v : variant) (options : McpBridgeStartOptions) (env : environment)
    (endpoint : string) (error : exn) :
  port_rejected (port options) = false ->
  URL_href (endpoint_text Number_toString options) = inr endpoint ->
  connect_error env = Some error ->
  let '(calls, result) := startMcpBridge Number_toString URL_href v options env in
  existsb touches_listener calls = false
  /\ List.length (filter is_connect calls) = 1%nat
  /\ match v with
     | Plain =>
         result = inl (Error (connect_diagnostic (exn_message error)))
         /\ enumerates_causes (connect_diagnostic (exn_message error)) = true
         /\ calls = [upstream_connect; upstream_close; upstreamTransport_close]
     | Saving => result = inl error /\ calls = [upstream_connect]
     end.
Proof.
  intros Hport Hurl Hconn. unfold startMcpBridge. rewrite Hport, Hurl, Hconn.
  destruct v; simpl; repeat split; try reflexivity.
Qed.

Definition demo_options : McpBridgeStartOptions :=
  {| host := "127.0.0.1"; port := Finite 49321; path := "/mcp"; saveEndpoint := true |}.

Definition xcrun_missing : environment :=
  {| connect_error := Some (Error "spawn xcrun ENOENT");
     config_error := None;
     listen_error := None;
     close_rejects := fun _ => false |}.

(** A stand-in for [new URL] on the examples: it rejects a text with an
    empty host and serializes any other text as it is. *)
Definition demo_href (text : string) : exn + string :=
  if String.prefix "http://:" text then inl (Error "Invalid URL") else inr text.

Lemma connect_failure_aborts_startup_witness :
  startMcpBridge (fun _ => "49321") demo_href Plain demo_options xcrun_missing
  = ([upstream_connect; upstream_close; upstreamTransport_close],
     inl (Error (connect_diagnostic "spawn xcrun ENOENT"))).
Proof.
  pose proof (connect_failure_aborts_startup (fun _ => "49321") demo_href Plain
                demo_options xcrun_missing "http://127.0.0.1:49321/mcp"
                (Error "spawn xcrun ENOENT") eq_refl eq_refl eq_refl) as H.
  destruct (startMcpBridge (fun _ => "49321") demo_href Plain demo_options xcrun_missing)
    as [calls result].
  destruct H as [_ [_ [Hr [_ Hc]]]]. rewrite Hr, Hc. reflexivity.
Defined.

Example empty_host_rejected_before_connect :
  startMcpBridge (fun _ => "49321") demo_href Plain
    {| host := ""; port := Finite 49321; path := "mcp"; saveEndpoint := false |}
    xcrun_missing
  = ([], inl (Error "Invalid URL")).
Proof. reflexivity. Qed.

(** C5 as stated fails on the [Saving] variant: the error it raises is
    the connection error itself and names none of the likely causes. *)
Lemma saving_variant_raises_bare_error :
  ~ (forall (v : variant) (options : McpBridgeStartOptions) (env : environment)
            (error : exn),
        port_rejected (port options) = false ->
        connect_error env = Some error ->
        exists e,
          snd (startMcpBridge (fun _ => "49321") demo_href v options env) = inl e
          /\ enumerates_causes (exn_message e) = true).
Proof.
  intros H.
  destruct (H Saving demo_options xcrun_missing (Error "spawn xcrun ENOENT")
              eq_refl eq_refl) as [e [He Hc]].
  simpl in He. injection He as <-. discriminate Hc.
Qed.

(** ** Calls on the backend channel *)

(** The backend channel: the client and its stdio transport. *)
Definition releases_backend (c : call) : bool :=
  match c with
  | upstream_close | upstreamTransport_close => true
  | _ => false
  end.

(** ** Rejections and error bodies *)

(** [req.method?.toUpperCase() ?? ''] *)
Definition method_of (req : request) : string :=
  match req_method req with
  | Some m => toUpperCase m
  | None => ""
  end.

Definition bad_session_response : response :=
  {| statusCode := 400;
     content_type := Some "application/json";
     body := Stringified (error_envelope (-32000) "Bad Request: missing valid MCP session") |}.

Definition internal_error_response (message : string) : response :=
  {| statusCode := 500;
     content_type := Some "application/json";
     body := Stringified (error_envelope (-32603) message) |}.

Definition plain (status : Z) (text : string) : response :=
  {| statusCode := status; content_type := None; body := Text text |}.

Lemma has_false_get (m : SessionMap.t) (k : string) :
  SessionMap.get m k = None -> SessionMap.has m k = false.
Proof. unfold SessionMap.has. intros ->. reflexivity. Qed.

Lemma has_true_get (m : SessionMap.t) (k : string) (s : TransportSession) :
  SessionMap.get m k = Some s -> SessionMap.has m k = true.
Proof. unfold SessionMap.has. intros ->. reflexivity. Qed.

Section Rejections.

Variable path : string.
Variable endpoint_href : string.
Variable isInitializeRequest : option json -> bool.

Let serve := listener path endpoint_href isInitializeRequest.

(** The listener on a request to the endpoint path, once the path
    checks are passed. *)
Lemma listener_on_endpoint (registry : SessionMap.t) (req : request) :
  normalizePath path <> "/health" ->
  req_url req = UrlPath (normalizePath path) ->
  listener_try path endpoint_href isInitializeRequest registry req
  = match (if String.eqb (method_of req) "POST" then parseJsonBody (req_body req)
           else inr None) with
    | inl e => inl e
    | inr parsed =>
        let sessionId := sessionId_of (req_session_header req) in
        let known :=
          match sessionId with
          | Some sid =>
              if andb (truthy sessionId) (SessionMap.has registry sid)
              then SessionMap.get registry sid else None
          | None => None
          end in
        if String.eqb (method_of req) "POST" then
          match known with
          | Some session => inr (HandleRequest session (Some parsed))
          | None =>
              if andb (negb (truthy sessionId)) (isInitializeRequest parsed)
              then inr (NewSession parsed)
              else inr (Respond bad_session_response)
          end
        else if orb (String.eqb (method_of req) "GET")
                    (String.eqb (method_of req) "DELETE") then
          match known with
          | Some session => inr (HandleRequest session None)
          | None => inr (Respond (plain 400 "Invalid or missing MCP session ID"))
          end
        else inr (Respond (plain 405 "Method not allowed"))
    end.
Proof.
  intros Hpath Hurl. unfold listener_try. rewrite Hurl.
  apply String.eqb_neq in Hpath. rewrite Hpath.
  rewrite String.eqb_refl. simpl. reflexivity.
Qed.

(** C4, as the code has it.  On an endpoint path other than
    [/health], a POST whose body is empty or is JSON, which carries
    no id of a registered session and is not an initialization
    without session id, is answered 400 with the [-32000] envelope. *)
Theorem post_without_session_rejected
    (registry : SessionMap.t) (req : request) (parsed : option json) :
  normalizePath path <> "/health" ->
  req_url req = UrlPath (normalizePath path) ->
  method_of req = "POST" ->
  parseJsonBody (req_body req) = inr parsed ->
  (forall sid, sessionId_of (req_session_header req) = Some sid ->
               sid <> "" -> SessionMap.get registry sid = None) ->
  (truthy (sessionId_of (req_session_header req)) = true
   \/ isInitializeRequest parsed = false) ->
  serve registry req = Respond bad_session_response
  /\ statusCode bad_session_response = 400
  /\ body bad_session_response
     = Stringified (JObj [("jsonrpc", JStr "2.0");
                          ("error", JObj [("code", JNum (-32000));
                                          ("message", JStr "Bad Request: missing valid MCP session")]);
                          ("id", JNull)]).
Proof.
  intros Hpath Hurl Hmethod Hbody Hunknown Hnoinit.
  split; [ | split; reflexivity ].
  unfold serve, listener. rewrite (listener_on_endpoint registry req Hpath Hurl).
  rewrite Hmethod, Hbody. simpl.
  destruct (sessionId_of (req_session_header req)) as [sid | ] eqn:Hsid.
  - destruct (truthy (Some sid)) eqn:Ht; simpl.
    + assert (Hne : sid <> "").
      { intros ->. discriminate Ht. }
      rewrite (has_false_get _ _ (Hunknown sid eq_refl Hne)). reflexivity.
    + destruct Hnoinit as [Habs | Hinit]; [discriminate Habs | ].
      rewrite Hinit. reflexivity.
  - simpl. destruct Hnoinit as [Habs | Hinit]; [discriminate Habs | ].
    rewrite Hinit. reflexivity.
Qed.

End Rejections.

(** *** Concrete requests *)

Fixpoint field (k : string) (fields : list (string * json)) : option json :=
  match fields with
  | [] => None
  | (k', x) :: rest => if String.eqb k k' then Some x else field k rest
  end.

(** A stand-in for the SDK's [isInitializeRequest] on the examples
    below: the body is an object whose [method] is ["initialize"]. *)
Definition method_is_initialize (parsed : option json) : bool :=
  match parsed with
  | Some (JObj fields) =>
      match field "method" fields with
      | Some (JStr m) => String.eqb m "initialize"
      | _ => false
      end
  | _ => false
  end.

Definition tools_list_body : json :=
  JObj [("jsonrpc", JStr "2.0"); ("id", JNum 1); ("method", JStr "tools/list")].

Definition initialize_body : json :=
  JObj [("jsonrpc", JStr "2.0"); ("id", JNum 0); ("method", JStr "initialize")].

Definition post (header : header_value) (b : body_input) : request :=
  {| req_url := UrlPath "/mcp"; req_method := Some "POST";
     req_session_header := header; req_body := b |}.

Definition get_ (header : header_value) : request :=
  {| req_url := UrlPath "/mcp"; req_method := Some "GET";
     req_session_header := header; req_body := NoChunks |}.

Definition delete_ (header : header_value) : request :=
  {| req_url := UrlPath "/mcp"; req_method := Some "DELETE";
     req_session_header := header; req_body := NoChunks |}.

Definition mcp_href : string := "http://127.0.0.1:49321/mcp".

Lemma post_without_session_rejected_witness :
  listener "/mcp" mcp_href method_is_initialize []
    (post HeaderAbsent (JsonText tools_list_body))
  = Respond bad_session_response.
Proof.
  apply (post_without_session_rejected "/mcp" mcp_href method_is_initialize []
           (post HeaderAbsent (JsonText tools_list_body)) (Some tools_list_body)).
  - discriminate.
  - reflexivity.
  - reflexivity.
  - reflexivity.
  - intros sid H. discriminate H.
  - right. reflexivity.
Defined.

(** C4 as stated fails on a body that is not JSON: the body is parsed
    before the session is looked at, the parse error reaches the
    [catch] block and the answer is 500 with code [-32603]. *)
Lemma malformed_post_answered_500 :
  ~ (forall (registry : SessionMap.t) (req : request),
        req_url req = UrlPath "/mcp" ->
        method_of req = "POST" ->
        sessionId_of (req_session_header req) = None ->
        (forall parsed, parseJsonBody (req_body req) = inr parsed ->
                        method_is_initialize parsed = false) ->
        exists r,
          listener "/mcp" mcp_href method_is_initialize registry req = Respond r
          /\ statusCode r = 400).
Proof.
  intros H.
  destruct (H [] (post HeaderAbsent (MalformedText "Unexpected end of JSON input")))
    as [r [Hr Hs]]; try reflexivity.
  - intros parsed Hp. discriminate Hp.
  - cbv in Hr. injection Hr as <-. discriminate Hs.
Qed.

Example malformed_post_response :
  listener "/mcp" mcp_href method_is_initialize []
    (post HeaderAbsent (MalformedText "Unexpected end of JSON input"))
  = Respond (internal_error_response "Unexpected end of JSON input").
Proof. reflexivity. Qed.

(** The answers the listener itself gives are seven at most. *)
Lemma listener_answers_bounded
    (path endpoint_href : string) (isInitializeRequest : option json -> bool)
    (registry : SessionMap.t) (req : request) (r : response) :
  listener path endpoint_href isInitializeRequest registry req = Respond r ->
  r = health_response endpoint_href
  \/ (r = bad_session_response /\ method_of req = "POST")
  \/ (exists message, r = internal_error_response message)
  \/ r = plain 400 "Missing URL"
  \/ r = plain 404 "Not found"
  \/ (r = plain 400 "Invalid or missing MCP session ID"
      /\ (method_of req = "GET" \/ method_of req = "DELETE"))
  \/ r = plain 405 "Method not allowed".
Proof.
  unfold listener, listener_try, method_of.
  destruct (req_url req) as [ | m | pathname ].
  - intros H. injection H as <-. auto 10.
  - intros H. injection H as <-. right. right. left. eexists. reflexivity.
  - destruct (String.eqb pathname "/health").
    { intros H. injection H as <-. left. reflexivity. }
    destruct (negb (String.eqb pathname (normalizePath path))).
    { intros H. injection H as <-. auto 10. }
    set (method := match req_method req with Some m => toUpperCase m | None => "" end).
    destruct (String.eqb method "POST") eqn:Hpost.
    + apply String.eqb_eq in Hpost.
      destruct (parseJsonBody (req_body req)) as [e | parsed].
      { intros H. injection H as <-. right. right. left. eexists. reflexivity. }
      cbv zeta.
      destruct (match sessionId_of (req_session_header req) with
                | Some sid =>
                    if andb (truthy (sessionId_of (req_session_header req)))
                            (SessionMap.has registry sid)
                    then SessionMap.get registry sid else None
                | None => None
                end); [ discriminate | ].
      destruct (andb (negb (truthy (sessionId_of (req_session_header req))))
                     (isInitializeRequest parsed)); [ discriminate | ].
      intros H. injection H as <-. right. left. split; [reflexivity | exact Hpost].
    + cbv zeta.
      destruct (String.eqb method "GET") eqn:Hget;
        destruct (String.eqb method "DELETE") eqn:Hdel; simpl;
        try (intros H; injection H as <-; auto 10; fail);
        (destruct (match sessionId_of (req_session_header req) with
                   | Some sid =>
                       if andb (truthy (sessionId_of (req_session_header req)))
                               (SessionMap.has registry sid)
                       then SessionMap.get registry sid else None
                   | None => None
                   end); [ discriminate | ]);
        intros H; injection H as <-;
        do 5 right; left; (split; [reflexivity | ]);
        try (left; apply String.eqb_eq; exact Hget);
        right; apply String.eqb_eq; exact Hdel.
Qed.

(** The registered session whose non-empty id the request carries,
    if there is one. *)
Definition carried_session (registry : SessionMap.t) (req : request)
    : option TransportSession :=
  match sessionId_of (req_session_header req) with
  | Some sid => if String.eqb sid "" then None else SessionMap.get registry sid
  | None => None
  end.

Lemma carried_session_known (registry : SessionMap.t) (req : request) :
  match sessionId_of (req_session_header req) with
  | Some sid =>
      if andb (truthy (sessionId_of (req_session_header req)))
              (SessionMap.has registry sid)
      then SessionMap.get registry sid else None
  | None => None
  end = carried_session registry req.
Proof.
  unfold carried_session.
  destruct (sessionId_of (req_session_header req)) as [sid | ]; [ | reflexivity].
  simpl. destruct (String.eqb sid ""); simpl; [reflexivity | ].
  unfold SessionMap.has. destruct (SessionMap.get registry sid); reflexivity.
Qed.

(** C7, as the code has it.  Which request gets which answer from the
    listener itself: a request without URL gets 400 with the text
    [Missing URL]; one whose URL does not parse gets the 500 [-32603]
    envelope; one for a path that is neither [/health] nor the endpoint
    path gets 404 with the text [Not found].  On the endpoint path: a
    POST whose body is not JSON gets the 500 [-32603] envelope with the
    parser's message; a POST that carries no registered session id and
    is not an initialization without session id gets the 400 [-32000]
    envelope; a GET or DELETE that carries no registered session id
    gets 400 with the text [Invalid or missing MCP session ID]; any
    other method gets 405 with the text [Method not allowed].  And the
    listener gives no answer besides these and the health answer: only
    the POST rejection and the internal error are JSON-RPC envelopes. *)
Theorem listener_answers_classified
    (path endpoint_href : string) (isInitializeRequest : option json -> bool)
    (registry : SessionMap.t) (req : request) :
  let answer := listener path endpoint_href isInitializeRequest registry req in
  (req_url req = UrlMissing -> answer = Respond (plain 400 "Missing URL"))
  /\ (forall message, req_url req = UrlInvalid message ->
        answer = Respond (internal_error_response message))
  /\ (forall pathname, req_url req = UrlPath pathname ->
        pathname <> "/health" -> pathname <> normalizePath path ->
        answer = Respond (plain 404 "Not found"))
  /\ (normalizePath path <> "/health" ->
      req_url req = UrlPath (normalizePath path) ->
      (forall e, method_of req = "POST" -> parseJsonBody (req_body req) = inl e ->
         answer = Respond (internal_error_response (exn_message e)))
      /\ (forall parsed,
            method_of req = "POST" -> parseJsonBody (req_body req) = inr parsed ->
            carried_session registry req = None ->
            truthy (sessionId_of (req_session_header req)) = true
            \/ isInitializeRequest parsed = false ->
            answer = Respond bad_session_response)
      /\ (method_of req = "GET" \/ method_of req = "DELETE" ->
          carried_session registry req = None ->
          answer = Respond (plain 400 "Invalid or missing MCP session ID"))
      /\ (method_of req <> "POST" -> method_of req <> "GET" ->
          method_of req <> "DELETE" ->
          answer = Respond (plain 405 "Method not allowed")))
  /\ (forall r, answer = Respond r ->
        r = health_response endpoint_href
        \/ (r = bad_session_response /\ method_of req = "POST")
        \/ (exists message, r = internal_error_response message)
        \/ r = plain 400 "Missing URL"
        \/ r = plain 404 "Not found"
        \/ (r = plain 400 "Invalid or missing MCP session ID"
            /\ (method_of req = "GET" \/ method_of req = "DELETE"))
        \/ r = plain 405 "Method not allowed").
Proof.
  intros answer. unfold answer.
  split; [ | split; [ | split; [ | split]]].
  - intros H. unfold listener, listener_try. rewrite H. reflexivity.
  - intros message H. unfold listener, listener_try. rewrite H. reflexivity.
  - intros pathname H Hh Hp. unfold listener, listener_try. rewrite H.
    apply String.eqb_neq in Hh, Hp. rewrite Hh, Hp. reflexivity.
  - intros Hpath Hurl. unfold listener.
    rewrite (listener_on_endpoint path endpoint_href isInitializeRequest registry req
               Hpath Hurl).
    cbv zeta. rewrite carried_session_known.
    split; [ | split; [ | split]].
    + intros e Hm Hb. rewrite Hm, Hb. simpl. reflexivity.
    + intros parsed Hm Hb Hc Hno. rewrite Hm, Hb, Hc. simpl.
      destruct Hno as [Ht | Hi]; [rewrite Ht | rewrite Hi, andb_false_r]; reflexivity.
    + intros Hm Hc. rewrite Hc.
      destruct Hm as [Hm | Hm]; rewrite Hm; reflexivity.
    + intros Hp Hg Hd.
      apply String.eqb_neq in Hp, Hg, Hd. rewrite Hp, Hg, Hd. reflexivity.
  - intros r. apply listener_answers_bounded.
Qed.

(** C7 as stated fails: a GET without session id is rejected with 400
    and a plain text body, not a JSON-RPC envelope. *)
Lemma get_rejection_is_plain_text :
  ~ (forall (registry : SessionMap.t) (req : request) (r : response),
        listener "/mcp" mcp_href method_is_initialize registry req = Respond r ->
        400 <= statusCode r ->
        exists code message, body r = Stringified (error_envelope code message)).
Proof.
  intros H.
  destruct (H [] (get_ HeaderAbsent) (plain 400 "Invalid or missing MCP session ID")
              eq_refl) as [code [message Hb]].
  - simpl. lia.
  - discriminate Hb.
Qed.

(** The [catch] block answers with the [-32603] envelope when nothing
    was sent, and with nothing otherwise. *)
Lemma listener_catch_spec (e : exn) (headersSent : bool) :
  listener_catch e headersSent
  = if headersSent then None else Some (internal_error_response (exn_message e)).
Proof. destruct headersSent; reflexivity. Qed.

(** ** The registry as a map *)

Lemma get_set_same (m : SessionMap.t) (k : string) (x : TransportSession) :
  SessionMap.get (SessionMap.set m k x) k = Some x.
Proof.
  induction m as [ | [k' x'] rest IH]; simpl.
  - rewrite String.eqb_refl. reflexivity.
  - destruct (String.eqb k k') eqn:E; simpl; rewrite E; [reflexivity | exact IH].
Qed.

Lemma get_set_other (m : SessionMap.t) (k k0 : string) (x : TransportSession) :
  k0 <> k -> SessionMap.get (SessionMap.set m k x) k0 = SessionMap.get m k0.
Proof.
  intros Hne. induction m as [ | [k' x'] rest IH]; simpl.
  - apply String.eqb_neq in Hne. rewrite Hne. reflexivity.
  - destruct (String.eqb k k') eqn:E; simpl.
    + apply String.eqb_eq in E. subst k'.
      apply String.eqb_neq in Hne. rewrite Hne. reflexivity.
    + rewrite IH. reflexivity.
Qed.

Lemma get_none_not_key (m : SessionMap.t) (k : string) :
  ~ In k (SessionMap.keys m) -> SessionMap.get m k = None.
Proof.
  induction m as [ | [k' x'] rest IH]; simpl; intros Hk.
  - reflexivity.
  - destruct (String.eqb k k') eqn:E.
    + apply String.eqb_eq in E. subst k'. exfalso. apply Hk. left. reflexivity.
    + apply IH. intros Hin. apply Hk. right. exact Hin.
Qed.

Lemma keys_delete_incl (m : SessionMap.t) (k k0 : string) :
  In k0 (SessionMap.keys (SessionMap.delete m k)) -> In k0 (SessionMap.keys m).
Proof.
  induction m as [ | [k' x'] rest IH]; simpl; intros H.
  - exact H.
  - destruct (String.eqb k k'); simpl in H.
    + right. exact H.
    + destruct H as [H | H]; [left; exact H | right; apply IH; exact H].
Qed.

Lemma get_delete_same (m : SessionMap.t) (k : string) :
  NoDup (SessionMap.keys m) -> SessionMap.get (SessionMap.delete m k) k = None.
Proof.
  induction m as [ | [k' x'] rest IH]; simpl; intros Hnd.
  - reflexivity.
  - inversion Hnd as [ | ? ? Hnotin Hrest]; subst.
    destruct (String.eqb k k') eqn:E; simpl.
    + apply String.eqb_eq in E. subst k'. apply get_none_not_key. exact Hnotin.
    + rewrite E. apply IH. exact Hrest.
Qed.

Lemma get_delete_other (m : SessionMap.t) (k k0 : string) :
  k0 <> k -> SessionMap.get (SessionMap.delete m k) k0 = SessionMap.get m k0.
Proof.
  intros Hne. induction m as [ | [k' x'] rest IH]; simpl.
  - reflexivity.
  - destruct (String.eqb k k') eqn:E; simpl.
    + apply String.eqb_eq in E. subst k'.
      apply String.eqb_neq in Hne. rewrite Hne. reflexivity.
    + rewrite IH. reflexivity.
Qed.

Lemma keys_set (m : SessionMap.t) (k k0 : string) (x : TransportSession) :
  In k0 (SessionMap.keys (SessionMap.set m k x)) -> k0 = k \/ In k0 (SessionMap.keys m).
Proof.
  induction m as [ | [k' x'] rest IH]; simpl; intros H.
  - destruct H as [H | []]. left. symmetry. exact H.
  - destruct (String.eqb k k'); simpl in H.
    + right. exact H.
    + destruct H as [H | H]; [right; left; exact H | ].
      destruct (IH H) as [H' | H']; [left; exact H' | right; right; exact H'].
Qed.

Lemma NoDup_keys_set (m : SessionMap.t) (k : string) (x : TransportSession) :
  NoDup (SessionMap.keys m) -> NoDup (SessionMap.keys (SessionMap.set m k x)).
Proof.
  induction m as [ | [k' x'] rest IH]; simpl; intros Hnd.
  - constructor; [intros [] | constructor].
  - inversion Hnd as [ | ? ? Hnotin Hrest]; subst.
    destruct (String.eqb k k') eqn:E; simpl.
    + constructor; assumption.
    + constructor; [ | apply IH; exact Hrest].
      intros Hin. apply keys_set in Hin as [Heq | Hin].
      * subst k'. rewrite String.eqb_refl in E. discriminate E.
      * apply Hnotin. exact Hin.
Qed.

Lemma NoDup_keys_delete (m : SessionMap.t) (k : string) :
  NoDup (SessionMap.keys m) -> NoDup (SessionMap.keys (SessionMap.delete m k)).
Proof.
  induction m as [ | [k' x'] rest IH]; simpl; intros Hnd.
  - constructor.
  - inversion Hnd as [ | ? ? Hnotin Hrest]; subst.
    destruct (String.eqb k k'); simpl.
    + exact Hrest.
    + constructor; [ | apply IH; exact Hrest].
      intros Hin. apply Hnotin. apply (keys_delete_incl rest k k'). exact Hin.
Qed.

(** ** What every run of the bridge preserves *)

Section Invariant.

Variable v : variant.
Variable upstream : Client.
Variable path : string.
Variable endpoint_href : string.
Variable isInitializeRequest : option json -> bool.

Let next := step v upstream path endpoint_href isInitializeRequest.
Let after := run v upstream path endpoint_href isInitializeRequest.

(** [seen] is what [randomUUID] has returned so far. *)
Record consistent (seen : list string) (b : bridge) : Prop := {
  registered_pair :
    forall sid s, SessionMap.get (sessions b) sid = Some s ->
      sessionId_of_transport (transport_sessionId b) (transport s) = Some sid
      /\ server_oid s = transport s
      /\ server s = createSessionServer upstream
      /\ ~ In sid (closed b);
  transports_issued :
    forall t sid, sessionId_of_transport (transport_sessionId b) t = Some sid ->
      In sid (issued b) /\ (t < next_oid b)%nat;
  one_transport_per_id :
    forall t1 t2 sid,
      sessionId_of_transport (transport_sessionId b) t1 = Some sid ->
      sessionId_of_transport (transport_sessionId b) t2 = Some sid -> t1 = t2;
  issued_once : NoDup (issued b);
  issued_seen : incl (issued b) seen;
  issued_live_or_closed :
    forall sid, In sid (issued b) ->
      In sid (closed b) \/ exists s, SessionMap.get (sessions b) sid = Some s;
  closed_issued : incl (closed b) (issued b);
  closed_truthy : forall sid, In sid (closed b) -> sid <> "";
  keys_once : NoDup (SessionMap.keys (sessions b))
}.

Lemma started_consistent : consistent [] started.
Proof.
  constructor; simpl; try discriminate; try (intros; contradiction);
    try constructor; intros ? [].
Qed.

Lemma consistent_seen_more (seen more : list string) (b : bridge) :
  consistent seen b -> consistent (seen ++ more) b.
Proof.
  intros [H1 H2 H3 H4 H5 H6 H7 H8 H9]. constructor; try assumption.
  intros x Hx. apply in_or_app. left. apply H5. exact Hx.
Qed.

Lemma onclose_consistent (seen : list string) (b : bridge) (oid : nat) :
  consistent seen b -> consistent seen (onclose v b oid).
Proof.
  intros Hb. unfold onclose.
  destruct (sessionId_of_transport (transport_sessionId b) oid) as [sid | ] eqn:Hsid;
    [ | exact Hb].
  destruct (truthy (Some sid)) eqn:Htruthy; simpl; [ | exact Hb].
  assert (Hne : sid <> "") by (intros ->; discriminate Htruthy).
  destruct Hb as [H1 H2 H3 H4 H5 H6 H7 H8 H9].
  destruct (H2 oid sid Hsid) as [Hissued _].
  assert (Hdel : consistent seen
            {| sessions := SessionMap.delete (sessions b) sid;
               transport_sessionId := transport_sessionId b;
               next_oid := next_oid b;
               issued := issued b;
               closed := sid :: closed b;
               closed_servers := closed_servers b |}).
  { constructor; simpl; try assumption.
    - intros sid' s Hget.
      destruct (string_dec sid' sid) as [-> | Hneq].
      + rewrite get_delete_same in Hget by exact H9. discriminate Hget.
      + rewrite get_delete_other in Hget by exact Hneq.
        destruct (H1 sid' s Hget) as [Ha [Hb [Hc Hd]]].
        repeat split; try assumption.
        intros [Heq | Hin]; [apply Hneq; symmetry; exact Heq | exact (Hd Hin)].
    - intros sid' Hin.
      destruct (string_dec sid' sid) as [-> | Hneq]; [left; left; reflexivity | ].
      destruct (H6 sid' Hin) as [Hc | [s Hs]].
      + left. right. exact Hc.
      + right. exists s. rewrite get_delete_other by exact Hneq. exact Hs.
    - intros x [<- | Hx]; [exact Hissued | apply H7; exact Hx].
    - intros x [<- | Hx]; [exact Hne | apply H8; exact Hx].
    - apply NoDup_keys_delete. exact H9. }
  destruct v.
  - exact Hdel.
  - destruct (SessionMap.get (sessions b) sid) as [session | ] eqn:Hget.
    + destruct Hdel as [D1 D2 D3 D4 D5 D6 D7 D8 D9].
      constructor; simpl in *; assumption.
    + constructor; simpl; try assumption.
      * intros sid' s Hget'.
        destruct (H1 sid' s Hget') as [Ha [Hb [Hc Hd]]].
        repeat split; try assumption.
        intros [Heq | Hin]; [ | exact (Hd Hin)].
        subst sid'. rewrite Hget in Hget'. discriminate Hget'.
      * intros sid' Hin.
        destruct (H6 sid' Hin) as [Hc | Hs]; [left; right; exact Hc | right; exact Hs].
      * intros x [<- | Hx]; [exact Hissued | apply H7; exact Hx].
      * intros x [<- | Hx]; [exact Hne | apply H8; exact Hx].
Qed.

Definition drawn (reaction : sdk_reaction) : list string :=
  match reaction with
  | Initializes uuid => [uuid]
  | _ => []
  end.

Lemma new_session_consistent (seen : list string) (b : bridge)
    (reaction : sdk_reaction) :
  consistent seen b ->
  (forall uuid, reaction = Initializes uuid -> ~ In uuid seen) ->
  consistent (seen ++ drawn reaction) (new_session upstream b reaction).
Proof.
  intros Hb Hfresh.
  assert (Hother : consistent (seen ++ drawn reaction)
            {| sessions := sessions b;
               transport_sessionId := transport_sessionId b;
               next_oid := S (next_oid b);
               issued := issued b;
               closed := closed b;
               closed_servers := closed_servers b |}).
  { apply consistent_seen_more with (more := drawn reaction) in Hb.
    destruct Hb as [H1 H2 H3 H4 H5 H6 H7 H8 H9].
    constructor; simpl; try assumption.
    intros t sid Ht. destruct (H2 t sid Ht) as [Ha Hlt]. split; [exact Ha | lia]. }
  destruct reaction as [ | uuid | ]; try exact Hother. clear Hother.
  specialize (Hfresh uuid eq_refl).
  destruct Hb as [H1 H2 H3 H4 H5 H6 H7 H8 H9].
  assert (Hnew : ~ In uuid (issued b)) by (intros Hin; apply Hfresh, H5, Hin).
  assert (Hold : forall t, sessionId_of_transport (transport_sessionId b) t = Some uuid -> False).
  { intros t Ht. apply Hnew. apply (H2 t uuid Ht). }
  unfold new_session. constructor; simpl.
  - intros sid s Hget.
    destruct (string_dec sid uuid) as [-> | Hneq].
    + rewrite get_set_same in Hget. injection Hget as <-. simpl.
      rewrite Nat.eqb_refl. repeat split.
      intros Hc. apply Hnew. apply H7. exact Hc.
    + rewrite get_set_other in Hget by exact Hneq.
      destruct (H1 sid s Hget) as [Ha [Hb [Hc Hd]]].
      repeat split; try assumption.
      destruct (H2 _ _ Ha) as [_ Hlt].
      destruct (Nat.eqb (transport s) (next_oid b)) eqn:E.
      * apply Nat.eqb_eq in E. lia.
      * exact Ha.
  - intros t sid Ht.
    destruct (Nat.eqb t (next_oid b)) eqn:E.
    + injection Ht as <-. apply Nat.eqb_eq in E. split; [left; reflexivity | lia].
    + destruct (H2 t sid Ht) as [Ha Hlt]. split; [right; exact Ha | lia].
  - intros t1 t2 sid Ht1 Ht2.
    destruct (Nat.eqb t1 (next_oid b)) eqn:E1; destruct (Nat.eqb t2 (next_oid b)) eqn:E2.
    + apply Nat.eqb_eq in E1, E2. congruence.
    + injection Ht1 as <-. exfalso. exact (Hold t2 Ht2).
    + injection Ht2 as <-. exfalso. exact (Hold t1 Ht1).
    + exact (H3 t1 t2 sid Ht1 Ht2).
  - constructor; assumption.
  - intros x [<- | Hx].
    + apply in_or_app. right. left. reflexivity.
    + apply in_or_app. left. apply H5. exact Hx.
  - intros sid [<- | Hin].
    + right. eexists. apply get_set_same.
    + destruct (H6 sid Hin) as [Hc | [s Hs]]; [left; exact Hc | ].
      right. exists s. rewrite get_set_other; [exact Hs | ].
      intros ->. exact (Hnew Hin).
  - intros x Hx. right. apply H7. exact Hx.
  - exact H8.
  - apply NoDup_keys_set. exact H9.
Qed.

Lemma draws_cons (e : event) (tr : list event) :
  draws (e :: tr) = (draws [e] ++ draws tr)%list.
Proof. destruct e as [req [ | uuid | ] | oid | m]; reflexivity. Qed.

Lemma step_consistent (seen : list string) (b : bridge) (e : event) :
  consistent seen b ->
  (forall uuid, In uuid (draws [e]) -> ~ In uuid seen) ->
  consistent (seen ++ draws [e]) (next b e).
Proof.
  intros Hb Hfresh. destruct e as [req reaction | oid | m]; simpl.
  - unfold next, step.
    destruct (listener path endpoint_href isInitializeRequest (sessions b) req)
      as [r | session parsed | parsed].
    + apply consistent_seen_more. exact Hb.
    + apply consistent_seen_more.
      destruct reaction; try exact Hb. apply onclose_consistent. exact Hb.
    + replace (draws [Incoming req reaction]) with (drawn reaction)
        by (destruct reaction; reflexivity).
      apply new_session_consistent; [exact Hb | ].
      intros uuid ->. apply Hfresh. left. reflexivity.
  - rewrite app_nil_r. apply onclose_consistent. exact Hb.
  - rewrite app_nil_r. exact Hb.
Qed.

Lemma fold_consistent (tr : list event) :
  forall (seen : list string) (b : bridge),
    consistent seen b ->
    NoDup (seen ++ draws tr) ->
    consistent (seen ++ draws tr) (fold_left next tr b).
Proof.
  induction tr as [ | e rest IH]; intros seen b Hb Hnd.
  - simpl. rewrite app_nil_r. exact Hb.
  - rewrite draws_cons in *. rewrite app_assoc in *. simpl fold_left.
    apply IH; [ | exact Hnd].
    apply step_consistent; [exact Hb | ].
    intros uuid Hin Hseen.
    apply NoDup_app_remove_r in Hnd.
    revert uuid Hin Hseen.
    clear - Hnd. induction seen as [ | x seen' IHs]; intros uuid Hin Hseen.
    + exact Hseen.
    + simpl in Hnd. inversion Hnd as [ | ? ? Hx Hrest]; subst.
      destruct Hseen as [-> | Hseen].
      * apply Hx. apply in_or_app. right. exact Hin.
      * exact (IHs Hrest uuid Hin Hseen).
Qed.

Lemma run_consistent (tr : list event) :
  NoDup (draws tr) -> consistent (draws tr) (after tr).
Proof.
  intros Hnd. apply (fold_consistent tr [] started started_consistent). exact Hnd.
Qed.

Lemma onclose_closed_grows (b : bridge) (oid : nat) (sid : string) :
  In sid (closed b) -> In sid (closed (onclose v b oid)).
Proof.
  intros Hin. unfold onclose.
  destruct (sessionId_of_transport (transport_sessionId b) oid) as [sid' | ];
    [ | exact Hin].
  destruct (negb (truthy (Some sid'))); [exact Hin | ].
  destruct v; [right; exact Hin | ].
  destruct (SessionMap.get (sessions b) sid'); right; exact Hin.
Qed.

Lemma step_closed_grows (b : bridge) (e : event) (sid : string) :
  In sid (closed b) -> In sid (closed (next b e)).
Proof.
  intros Hin. destruct e as [req reaction | oid | m]; simpl.
  - unfold next, step.
    destruct (listener path endpoint_href isInitializeRequest (sessions b) req)
      as [r | session parsed | parsed].
    + exact Hin.
    + destruct reaction; try exact Hin. apply onclose_closed_grows. exact Hin.
    + destruct reaction; exact Hin.
  - apply onclose_closed_grows. exact Hin.
  - exact Hin.
Qed.

Lemma fold_closed_grows (tr : list event) (sid : string) :
  forall b, In sid (closed b) -> In sid (closed (fold_left next tr b)).
Proof.
  induction tr as [ | e rest IH]; intros b Hin; simpl.
  - exact Hin.
  - apply IH. apply step_closed_grows. exact Hin.
Qed.

Lemma run_app (tr1 tr2 : list event) :
  after (tr1 ++ tr2) = fold_left next tr2 (after tr1).
Proof. unfold after, run. apply fold_left_app. Qed.

Lemma closed_stays_closed (tr1 tr2 : list event) (sid : string) :
  In sid (closed (after tr1)) -> In sid (closed (after (tr1 ++ tr2))).
Proof. rewrite run_app. apply fold_closed_grows. Qed.


Lemma onclose_frame (b : bridge) (oid : nat) (sid : string) :
  SessionMap.get (sessions (onclose v b oid)) sid = SessionMap.get (sessions b) sid
  \/ closed (onclose v b oid) = sid :: closed b
  \/ issued (onclose v b oid) = sid :: issued b.
Proof.
  unfold onclose.
  destruct (sessionId_of_transport (transport_sessionId b) oid) as [sid' | ];
    [ | left; reflexivity].
  destruct (negb (truthy (Some sid'))); [left; reflexivity | ].
  destruct (string_dec sid sid') as [<- | Hne].
  - right. left. destruct v; [reflexivity | ].
    destruct (SessionMap.get (sessions b) sid); reflexivity.
  - left. destruct v; simpl.
    + apply get_delete_other. exact Hne.
    + destruct (SessionMap.get (sessions b) sid'); simpl;
        [apply get_delete_other; exact Hne | reflexivity].
Qed.

Lemma step_frame (b : bridge) (e : event) (sid : string) :
  SessionMap.get (sessions (next b e)) sid = SessionMap.get (sessions b) sid
  \/ closed (next b e) = sid :: closed b
  \/ issued (next b e) = sid :: issued b.
Proof.
  unfold next. destruct e as [req reaction | oid | m]; simpl.
  - destruct (listener path endpoint_href isInitializeRequest (sessions b) req)
      as [r | session parsed | parsed].
    + left. reflexivity.
    + destruct reaction; try (left; reflexivity). apply onclose_frame.
    + destruct reaction as [ | uuid | ]; simpl; try (left; reflexivity).
      destruct (string_dec sid uuid) as [<- | Hne].
      * right. right. reflexivity.
      * left. apply get_set_other. exact Hne.
  - apply onclose_frame.
  - left. reflexivity.
Qed.




End Invariant.


(** ** Registry entries and their transports *)

(** Facts that hold in every state the bridge reaches, whatever ids it
    is given: an entry is registered under the session id of its own
    transport, transports are numbered below [next_oid], and the
    registry has no key twice. *)
Record paired (b : bridge) : Prop := {
  paired_entry :
    forall k s, SessionMap.get (sessions b) k = Some s ->
      sessionId_of_transport (transport_sessionId b) (transport s) = Some k;
  paired_bound :
    forall t sid, sessionId_of_transport (transport_sessionId b) t = Some sid ->
      (t < next_oid b)%nat;
  paired_keys : NoDup (SessionMap.keys (sessions b))
}.

Lemma delete_absent (m : SessionMap.t) (k : string) :
  SessionMap.get m k = None -> SessionMap.delete m k = m.
Proof.
  induction m as [ | [k' x] rest IH]; simpl; [reflexivity | ].
  destruct (String.eqb k k'); [discriminate | ].
  intros H. rewrite (IH H). reflexivity.
Qed.

Lemma get_in (m : SessionMap.t) (k : string) (s : TransportSession) :
  SessionMap.get m k = Some s -> In (k, s) m.
Proof.
  induction m as [ | [k' x] rest IH]; simpl; [discriminate | ].
  destruct (String.eqb k k') eqn:E.
  - intros H. injection H as <-. apply String.eqb_eq in E. subst k'. left. reflexivity.
  - intros H. right. apply IH. exact H.
Qed.

Lemma in_get (m : SessionMap.t) (k : string) (s : TransportSession) :
  NoDup (SessionMap.keys m) -> In (k, s) m -> SessionMap.get m k = Some s.
Proof.
  induction m as [ | [k' x] rest IH]; simpl; intros Hnd Hin; [contradiction | ].
  inversion Hnd as [ | ? ? Hx Hrest]; subst.
  destruct Hin as [Heq | Hin].
  - injection Heq as -> ->. rewrite String.eqb_refl. reflexivity.
  - destruct (String.eqb k k') eqn:E.
    + apply String.eqb_eq in E. subst k'. exfalso. apply Hx.
      change k with (fst (k, s)). apply in_map. exact Hin.
    + apply IH; assumption.
Qed.

Section OncloseFacts.

Variable v : variant.

Lemma onclose_table (b : bridge) (t : nat) :
  transport_sessionId (onclose v b t) = transport_sessionId b
  /\ next_oid (onclose v b t) = next_oid b.
Proof.
  unfold onclose.
  destruct (sessionId_of_transport (transport_sessionId b) t) as [sid | ];
    [ | split; reflexivity].
  destruct (negb (truthy (Some sid))); [split; reflexivity | ].
  destruct v; [split; reflexivity | ].
  destruct (SessionMap.get (sessions b) sid); split; reflexivity.
Qed.

(** The registry after [onclose]: the transport's session id, when it
    has a non-empty one, is deleted. *)
Lemma onclose_sessions (b : bridge) (t : nat) :
  sessions (onclose v b t)
  = match sessionId_of_transport (transport_sessionId b) t with
    | Some sid =>
        if truthy (Some sid) then SessionMap.delete (sessions b) sid else sessions b
    | None => sessions b
    end.
Proof.
  unfold onclose.
  destruct (sessionId_of_transport (transport_sessionId b) t) as [sid | ];
    [ | reflexivity].
  destruct (truthy (Some sid)); simpl; [ | reflexivity].
  destruct v; [reflexivity | ].
  destruct (SessionMap.get (sessions b) sid) eqn:E; simpl; [reflexivity | ].
  symmetry. apply delete_absent. exact E.
Qed.

Lemma onclose_paired (b : bridge) (t : nat) : paired b -> paired (onclose v b t).
Proof.
  intros [H1 H2 H3].
  destruct (onclose_table b t) as [Ht Hn].
  constructor.
  - rewrite Ht, onclose_sessions. intros k s.
    destruct (sessionId_of_transport (transport_sessionId b) t) as [sid | ];
      [ | apply H1].
    destruct (truthy (Some sid)); [ | apply H1].
    destruct (string_dec k sid) as [-> | Hne].
    + rewrite get_delete_same by exact H3. discriminate.
    + rewrite get_delete_other by exact Hne. apply H1.
  - rewrite Ht, Hn. exact H2.
  - rewrite onclose_sessions.
    destruct (sessionId_of_transport (transport_sessionId b) t) as [sid | ];
      [ | exact H3].
    destruct (truthy (Some sid)); [apply NoDup_keys_delete; exact H3 | exact H3].
Qed.

End OncloseFacts.

Lemma new_session_paired (upstream : Client) (b : bridge) (reaction : sdk_reaction) :
  paired b -> paired (new_session upstream b reaction).
Proof.
  intros [H1 H2 H3].
  destruct reaction as [ | uuid | ]; unfold new_session;
    try (constructor; simpl; [exact H1 | intros t sid Ht; specialize (H2 t sid Ht); lia
                             | exact H3]).
  constructor; simpl.
  - intros k s Hget.
    destruct (string_dec k uuid) as [-> | Hne].
    + rewrite get_set_same in Hget. injection Hget as <-. simpl.
      rewrite Nat.eqb_refl. reflexivity.
    + rewrite get_set_other in Hget by exact Hne.
      pose proof (H1 k s Hget) as Ht. pose proof (H2 _ _ Ht) as Hlt.
      destruct (Nat.eqb (transport s) (next_oid b)) eqn:E; [ | exact Ht].
      apply Nat.eqb_eq in E. lia.
  - intros t sid Ht. destruct (Nat.eqb t (next_oid b)) eqn:E.
    + apply Nat.eqb_eq in E. lia.
    + specialize (H2 t sid Ht). lia.
  - apply NoDup_keys_set. exact H3.
Qed.

Lemma run_paired (v : variant) (upstream : Client) (path endpoint_href : string)
    (isInitializeRequest : option json -> bool) (tr : list event) :
  paired (run v upstream path endpoint_href isInitializeRequest tr).
Proof.
  unfold run.
  assert (H : forall b, paired b ->
               paired (fold_left (step v upstream path endpoint_href isInitializeRequest)
                         tr b)).
  { induction tr as [ | e rest IH]; intros b Hb; simpl; [exact Hb | ].
    apply IH. destruct e as [req reaction | oid | m]; simpl.
    - destruct (listener path endpoint_href isInitializeRequest (sessions b) req)
        as [r | session parsed | parsed].
      + exact Hb.
      + destruct reaction; try exact Hb. apply onclose_paired. exact Hb.
      + apply new_session_paired. exact Hb.
    - apply onclose_paired. exact Hb.
    - exact Hb. }
  apply H. constructor; simpl; try discriminate. constructor.
Qed.

(** ** Session identifiers *)


(** *** A concrete run *)

Definition uuid_a : string := "3f0c2a1e-5b7d-4c1a-9e2f-0a1b2c3d4e5f".
Definition uuid_b : string := "9b2e7c40-1d3a-4f6b-8c5d-7e8f9a0b1c2d".

Definition xcode_tools : json :=
  JObj [("tools", JArr [JObj [("name", JStr "XcodeListWindows")];
                        JObj [("name", JStr "BuildProject")]])].

Definition xcode_backend : Client :=
  {| listTools := fun _ => Resolved xcode_tools;
     callTool := fun p => match p with
                          | Some args => Resolved (JObj [("content", JArr [args])])
                          | None => Rejected (Error "Invalid params")
                          end |}.

(** Two clients initialize. *)
Definition two_opened : list event :=
  [Incoming (post HeaderAbsent (JsonText initialize_body)) (Initializes uuid_a);
   Incoming (post HeaderAbsent (JsonText initialize_body)) (Initializes uuid_b)].

(** The first one sends DELETE, the backend reports an error, the
    second lists the tools. *)
Definition first_deleted : list event :=
  [Incoming (delete_ (HeaderString uuid_a)) Closes;
   UpstreamError "malformed output";
   Incoming (post (HeaderString uuid_b) (JsonText tools_list_body)) Answers].

Definition demo_run : list event -> bridge :=
  run Plain xcode_backend "/mcp" mcp_href method_is_initialize.

Lemma demo_draws_distinct : NoDup (draws (two_opened ++ first_deleted)).
Proof.
  simpl. repeat constructor; simpl; intuition discriminate.
Defined.

Example demo_registry_after_delete :
  SessionMap.keys (sessions (demo_run (two_opened ++ first_deleted))) = [uuid_b]
  /\ closed (demo_run (two_opened ++ first_deleted)) = [uuid_a]
  /\ issued (demo_run (two_opened ++ first_deleted)) = [uuid_b; uuid_a].
Proof. repeat split; reflexivity. Qed.


(** Two initializations answered with the same id. *)
Definition same_id_twice : list event :=
  [Incoming (post HeaderAbsent (JsonText initialize_body)) (Initializes uuid_a);
   Incoming (post HeaderAbsent (JsonText initialize_body)) (Initializes uuid_a)].


Example repeated_id_replaces_session :
  issued (demo_run same_id_twice) = [uuid_a; uuid_a]
  /\ SessionMap.get (sessions (demo_run same_id_twice)) uuid_a
     = Some {| server_oid := 1; server := createSessionServer xcode_backend;
               transport := 1 |}
  /\ sessionId_of_transport (transport_sessionId (demo_run same_id_twice)) 0
     = Some uuid_a
  /\ closed (demo_run same_id_twice) = [].
Proof. repeat split; reflexivity. Qed.

(** ** Shutdown *)

(** A [close] call on a session's server or transport. *)
Definition is_session_close (c : call) : bool :=
  match c with
  | sessionServer_close _ | transport_close _ => true
  | _ => false
  end.

Section ShutdownFacts.

Variable v : variant.
Variable env : environment.

(** The transport [t] carries the session id [k], under which nothing
    but a session on [t] is registered. *)
Record closable (k : string) (t : nat) (p : process) : Prop := {
  closable_id :
    sessionId_of_transport (transport_sessionId (proc_bridge p)) t = Some k;
  closable_keys : NoDup (SessionMap.keys (sessions (proc_bridge p)));
  closable_own :
    forall c, SessionMap.get (sessions (proc_bridge p)) k = Some c -> transport c = t
}.

(** What one closing step leaves as it was, and what it adds. *)
Record extends (k : string) (p p' : process) : Prop := {
  extends_table :
    transport_sessionId (proc_bridge p') = transport_sessionId (proc_bridge p);
  extends_others :
    forall k', k' <> k ->
      SessionMap.get (sessions (proc_bridge p')) k'
      = SessionMap.get (sessions (proc_bridge p)) k';
  extends_keys :
    NoDup (SessionMap.keys (sessions (proc_bridge p))) ->
    NoDup (SessionMap.keys (sessions (proc_bridge p')));
  extends_calls :
    exists extra,
      proc_calls p' = (proc_calls p ++ extra)%list
      /\ Forall (fun c => is_session_close c = true) extra;
  extends_closed : incl (proc_closed p) (proc_closed p')
}.

Lemma extends_refl (k : string) (p : process) : extends k p p.
Proof.
  constructor.
  - reflexivity.
  - intros k' _. reflexivity.
  - intros H. exact H.
  - exists []. rewrite app_nil_r. split; [reflexivity | constructor].
  - intros x Hx. exact Hx.
Qed.

Lemma extends_trans (k : string) (p1 p2 p3 : process) :
  extends k p1 p2 -> extends k p2 p3 -> extends k p1 p3.
Proof.
  intros [A1 A2 A3 [xa [A4 A4']] A5] [B1 B2 B3 [xb [B4 B4']] B5].
  constructor.
  - rewrite B1. exact A1.
  - intros k' Hk. rewrite (B2 k' Hk). apply A2. exact Hk.
  - intros H. apply B3, A3, H.
  - exists (xa ++ xb)%list. rewrite B4, A4, app_assoc.
    split; [reflexivity | apply Forall_app; split; assumption].
  - intros x Hx. apply B5, A5, Hx.
Qed.

Lemma extends_log (k : string) (c : call) (p : process) :
  is_session_close c = true -> extends k p (log c p).
Proof.
  intros Hc. constructor; simpl.
  - reflexivity.
  - intros k' _. reflexivity.
  - intros H. exact H.
  - exists [c]. split; [reflexivity | constructor; [exact Hc | constructor]].
  - intros x Hx. exact Hx.
Qed.

Lemma is_closed_In (p : process) (t : nat) : is_closed p t = true <-> In t (proc_closed p).
Proof.
  unfold is_closed. rewrite existsb_exists. split.
  - intros [x [Hx He]]. apply Nat.eqb_eq in He. subst x. exact Hx.
  - intros H. exists t. split; [exact H | apply Nat.eqb_refl].
Qed.

(** Closing the transport of a registry entry: it ends up closed, its
    own id is the only one that may leave the registry, and the only
    call made is the handler's [close] on the entry's server. *)
Lemma close_transport_extends (fuel : nat) (k : string) (t : nat) (p : process) :
  closable k t p ->
  let p' := close_transport v env (S fuel) t p in
  closable k t p' /\ extends k p p' /\ In t (proc_closed p').
Proof.
  intros Hp p'. unfold p'. simpl.
  destruct (is_closed p t) eqn:Hc.
  { split; [exact Hp | split; [apply extends_refl | apply is_closed_In; exact Hc]]. }
  destruct Hp as [Hid Hkeys Hown]. rewrite Hid.
  set (p1 := {| proc_bridge := proc_bridge p; proc_closed := t :: proc_closed p;
                proc_calls := proc_calls p |}).
  assert (H1 : extends k p p1).
  { constructor; simpl.
    - reflexivity.
    - intros k' _. reflexivity.
    - intros H. exact H.
    - exists []. rewrite app_nil_r. split; [reflexivity | constructor].
    - intros x Hx. right. exact Hx. }
  (* the handler's call on the registered server *)
  match goal with
  | |- context [onclose v (proc_bridge ?x) t] => remember x as p2 eqn:Hp2
  end.
  assert (H2 : proc_bridge p2 = proc_bridge p
               /\ extends k p1 p2 /\ In t (proc_closed p2)).
  { subst p2. destruct v.
    - split; [reflexivity | split; [apply extends_refl | left; reflexivity]].
    - destruct (negb (truthy (Some k))).
      + split; [reflexivity | split; [apply extends_refl | left; reflexivity]].
      + simpl. destruct (SessionMap.get (sessions (proc_bridge p)) k) as [c | ] eqn:Hget.
        * unfold closing.
          assert (Hnested : close_transport Saving env fuel (transport c)
                              (log (sessionServer_close (server_oid c)) p1)
                            = log (sessionServer_close (server_oid c)) p1).
          { rewrite (Hown c eq_refl). destruct fuel; [reflexivity | ].
            simpl. unfold is_closed. simpl. rewrite Nat.eqb_refl. reflexivity. }
          rewrite Hnested.
          destruct (close_rejects env (sessionServer_close (server_oid c)));
            (split; [reflexivity | split; [apply extends_log; reflexivity
                                          | left; reflexivity]]).
        * split; [reflexivity | split; [apply extends_refl | left; reflexivity]]. }
  clear Hp2. destruct H2 as [Hb2 [H12 Hin2]].
  destruct (onclose_table v (proc_bridge p2) t) as [Ht Hn].
  assert (Hs : sessions (onclose v (proc_bridge p2) t)
               = if truthy (Some k) then SessionMap.delete (sessions (proc_bridge p)) k
                 else sessions (proc_bridge p)).
  { rewrite onclose_sessions, Hb2, Hid. reflexivity. }
  split; [ | split].
  - constructor; simpl.
    + rewrite Ht, Hb2. exact Hid.
    + rewrite Hs. destruct (truthy (Some k)); [apply NoDup_keys_delete | ]; exact Hkeys.
    + rewrite Hs. destruct (truthy (Some k)); [ | exact Hown].
      intros c. rewrite get_delete_same by exact Hkeys. discriminate.
  - apply (extends_trans k p p1 _ H1). apply (extends_trans k p1 p2 _ H12).
    constructor; simpl.
    + exact Ht.
    + intros k' Hne. rewrite Hs, Hb2.
      destruct (truthy (Some k)); [apply get_delete_other; exact Hne | reflexivity].
    + intros _. rewrite Hs.
      destruct (truthy (Some k)); [apply NoDup_keys_delete | ]; exact Hkeys.
    + exists []. rewrite app_nil_r. split; [reflexivity | constructor].
    + intros x Hx. exact Hx.
  - simpl. exact Hin2.
Qed.

(** One [close] call of the loop on a registry entry. *)
Lemma closing_extends (fuel : nat) (c : call) (k : string) (t : nat) (p : process) :
  is_session_close c = true ->
  closable k t p ->
  let p' := closing env c (close_transport v env (S fuel) t) p in
  closable k t p' /\ extends k p p'
  /\ In c (proc_calls p')
  /\ (close_rejects env c = false -> In t (proc_closed p')).
Proof.
  intros Hc Hp p'. unfold p', closing.
  assert (Hlog : closable k t (log c p)).
  { destruct Hp as [A B C]. constructor; simpl; assumption. }
  destruct (close_rejects env c).
  - split; [exact Hlog | split; [apply extends_log; exact Hc | split]].
    + simpl. apply in_or_app. right. left. reflexivity.
    + discriminate.
  - destruct (close_transport_extends fuel k t (log c p) Hlog) as [H1 [H2 H3]].
    split; [exact H1 | split; [ | split]].
    + apply (extends_trans k p (log c p)); [apply extends_log; exact Hc | exact H2].
    + destruct (extends_calls _ _ _ H2) as [extra [He _]]. rewrite He. simpl.
      apply in_or_app. left. apply in_or_app. right. left. reflexivity.
    + intros _. exact H3.
Qed.

End ShutdownFacts.

(** The body of the loop on a registry entry. *)
Lemma cleanup_session_extends (v : variant) (env : environment)
    (fuel : nat) (k : string) (s : TransportSession) (p : process) :
  closable k (transport s) p ->
  let p' := cleanup_session v env (S fuel) s p in
  closable k (transport s) p' /\ extends k p p'
  /\ In (sessionServer_close (server_oid s)) (proc_calls p')
  /\ (v = Saving -> In (transport_close (transport s)) (proc_calls p'))
  /\ (close_rejects env (sessionServer_close (server_oid s)) = false
      \/ (v = Saving /\ close_rejects env (transport_close (transport s)) = false) ->
      In (transport s) (proc_closed p')).
Proof.
  intros Hp p'. unfold p', cleanup_session. destruct v.
  - destruct (closing_extends Plain env fuel (sessionServer_close (server_oid s)) k
                (transport s) p eq_refl Hp) as [H1 [H2 [H3 H4]]].
    split; [exact H1 | split; [exact H2 | split; [exact H3 | split]]].
    + discriminate.
    + intros [Hr | [Hv _]]; [exact (H4 Hr) | discriminate Hv].
  - destruct (closing_extends Saving env fuel (transport_close (transport s)) k
                (transport s) p eq_refl Hp) as [H1 [H2 [H3 H4]]].
    destruct (closing_extends Saving env fuel (sessionServer_close (server_oid s)) k
                (transport s) _ eq_refl H1) as [G1 [G2 [G3 G4]]].
    split; [exact G1 | split; [ | split; [exact G3 | split]]].
    + exact (extends_trans k _ _ _ H2 G2).
    + intros _. destruct (extends_calls _ _ _ G2) as [extra [He _]]. rewrite He.
      apply in_or_app. left. exact H3.
    + intros [Hr | [_ Hr]]; [exact (G4 Hr) | ].
      apply (extends_closed _ _ _ G2). exact (H4 Hr).
Qed.

(** The loop over the entries that are still to be visited. *)
Lemma for_of_sessions_spec (v : variant) (env : environment)
    (fuel : nat) (pending : list (string * TransportSession)) :
  forall p,
    NoDup (map fst pending) ->
    NoDup (SessionMap.keys (sessions (proc_bridge p))) ->
    (forall k s, In (k, s) pending ->
       SessionMap.get (sessions (proc_bridge p)) k = Some s
       /\ sessionId_of_transport (transport_sessionId (proc_bridge p)) (transport s)
          = Some k) ->
    let p' := for_of_sessions pending (cleanup_session v env (S fuel)) p in
    (exists extra,
        proc_calls p' = (proc_calls p ++ extra)%list
        /\ Forall (fun c => is_session_close c = true) extra)
    /\ incl (proc_closed p) (proc_closed p')
    /\ forall k s, In (k, s) pending ->
         In (sessionServer_close (server_oid s)) (proc_calls p')
         /\ (v = Saving -> In (transport_close (transport s)) (proc_calls p'))
         /\ (close_rejects env (sessionServer_close (server_oid s)) = false
             \/ (v = Saving /\ close_rejects env (transport_close (transport s)) = false) ->
             In (transport s) (proc_closed p')).
Proof.
  induction pending as [ | [k s] rest IH]; intros p Hnd Hkeys Hpending.
  - simpl. split; [ | split].
    + exists []. rewrite app_nil_r. split; [reflexivity | constructor].
    + intros x Hx. exact Hx.
    + intros k s [].
  - simpl in Hnd. inversion Hnd as [ | ? ? Hk Hrest]; subst.
    destruct (Hpending k s (or_introl eq_refl)) as [Hget Hid].
    simpl for_of_sessions. rewrite (has_true_get _ _ _ Hget).
    assert (Hc : closable k (transport s) p).
    { constructor; [exact Hid | exact Hkeys | ].
      intros c Hc. rewrite Hget in Hc. injection Hc as <-. reflexivity. }
    destruct (cleanup_session_extends v env fuel k s p Hc)
      as [_ [Hext [Hsrv [Htr Hcl]]]].
    set (p1 := cleanup_session v env (S fuel) s p) in *.
    assert (Hpending1 : forall k' s', In (k', s') rest ->
              SessionMap.get (sessions (proc_bridge p1)) k' = Some s'
              /\ sessionId_of_transport (transport_sessionId (proc_bridge p1)) (transport s')
                 = Some k').
    { intros k' s' Hin.
      destruct (Hpending k' s' (or_intror Hin)) as [Hg Hi].
      assert (Hne : k' <> k).
      { intros ->. apply Hk. change k with (fst (k, s')). apply in_map. exact Hin. }
      rewrite (extends_others _ _ _ Hext k' Hne), (extends_table _ _ _ Hext).
      split; assumption. }
    destruct (IH p1 Hrest (extends_keys _ _ _ Hext Hkeys) Hpending1)
      as [[extra [Hcalls Hall]] [Hincl Hrestp]].
    destruct (extends_calls _ _ _ Hext) as [extra1 [Hcalls1 Hall1]].
    split; [ | split].
    + exists (extra1 ++ extra)%list. rewrite Hcalls, Hcalls1, app_assoc.
      split; [reflexivity | apply Forall_app; split; assumption].
    + intros x Hx. apply Hincl. apply (extends_closed _ _ _ Hext). exact Hx.
    + intros k' s' [Heq | Hin].
      * injection Heq as <- <-.
        split; [ | split].
        -- rewrite Hcalls. apply in_or_app. left. exact Hsrv.
        -- intros Hv. rewrite Hcalls. apply in_or_app. left. exact (Htr Hv).
        -- intros Hr. apply Hincl. exact (Hcl Hr).
      * apply (Hrestp k' s'). exact Hin.
Qed.

Lemma cleanup_after_drain (v : variant) (env : environment) (p : process) :
  proc_calls (cleanup v env p)
  = (proc_calls (drain v env p)
     ++ [sessions_clear; server_close; upstream_close; upstreamTransport_close])%list
  /\ sessions (proc_bridge (cleanup v env p)) = SessionMap.empty
  /\ proc_closed (cleanup v env p) = proc_closed (drain v env p).
Proof.
  unfold cleanup, closing.
  destruct (close_rejects env upstream_close), (close_rejects env upstreamTransport_close);
    simpl; rewrite <- !app_assoc; repeat split; reflexivity.
Qed.

(** C6.  Take the bridge after any run, when the signal arrives, in
    either variant and whatever [close] calls reject.  The loop of
    [cleanup] calls [close] on the protocol server of every registered
    session, and in the [Saving] variant on its transport as well; the
    session's transport is closed by then (through the server's own
    [close] in the [Plain] variant) unless the call that would close it
    rejected; and the loop makes no other call.  After the loop,
    [cleanup] clears the registry, closes the HTTP listener, and only
    then closes the backend client and after it the stdio transport;
    the handler ends with [process.exit(0)]. *)
Theorem cleanup_drains_before_backend
    (v : variant) (upstream : Client) (path endpoint_href : string)
    (isInitializeRequest : option json -> bool)
    (env : environment) (tr : list event) (closed_so_far : list nat) :
  let b := run v upstream path endpoint_href isInitializeRequest tr in
  let drained := drain v env (at_signal b closed_so_far) in
  let done := cleanup v env (at_signal b closed_so_far) in
  (forall sid s, SessionMap.get (sessions b) sid = Some s ->
     In (sessionServer_close (server_oid s)) (proc_calls drained)
     /\ (v = Saving -> In (transport_close (transport s)) (proc_calls drained))
     /\ (close_rejects env (sessionServer_close (server_oid s)) = false
         \/ (v = Saving /\ close_rejects env (transport_close (transport s)) = false) ->
         In (transport s) (proc_closed drained)))
  /\ Forall (fun c => is_session_close c = true) (proc_calls drained)
  /\ proc_calls done
     = (proc_calls drained
        ++ [sessions_clear; server_close; upstream_close; upstreamTransport_close])%list
  /\ sessions (proc_bridge done) = SessionMap.empty
  /\ proc_closed done = proc_closed drained
  /\ proc_calls (on_signal v env (at_signal b closed_so_far))
     = (proc_calls done ++ [process_exit 0])%list.
Proof.
  intros b drained done.
  pose proof (run_paired v upstream path endpoint_href isInitializeRequest tr) as Hb.
  fold b in Hb. destruct Hb as [Hentry _ Hkeys].
  destruct (for_of_sessions_spec v env
              (S (List.length (transport_sessionId b))) (sessions b)
              (at_signal b closed_so_far) Hkeys Hkeys)
    as [[extra [Hcalls Hall]] [_ Hevery]].
  { intros k s Hin. pose proof (in_get _ _ _ Hkeys Hin) as Hget.
    split; [exact Hget | exact (Hentry k s Hget)]. }
  destruct (cleanup_after_drain v env (at_signal b closed_so_far)) as [Hc [He Hcl]].
  split; [ | split; [ | split; [exact Hc | split; [exact He | split; [exact Hcl | reflexivity]]]]].
  - intros sid s Hget. apply (Hevery sid s). apply get_in. exact Hget.
  - unfold drained, drain, fuel_of. simpl proc_bridge. rewrite Hcalls. exact Hall.
Qed.

Definition quiet : environment :=
  {| connect_error := None; config_error := None; listen_error := None;
     close_rejects := fun _ => false |}.

Example cleanup_of_two_sessions :
  proc_calls (cleanup Plain quiet (at_signal (demo_run two_opened) []))
  = [sessionServer_close 0; sessionServer_close 1;
     sessions_clear; server_close; upstream_close; upstreamTransport_close]
  /\ proc_closed (cleanup Plain quiet (at_signal (demo_run two_opened) [])) = [1; 0]%nat
  /\ proc_calls
       (cleanup Saving quiet
          (at_signal (run Saving xcode_backend "/mcp" mcp_href method_is_initialize
                        two_opened) []))
     = [transport_close 0; sessionServer_close 0; sessionServer_close 0;
        transport_close 1; sessionServer_close 1; sessionServer_close 1;
        sessions_clear; server_close; upstream_close; upstreamTransport_close].
Proof. repeat split; reflexivity. Qed.

(** ** Requests that carry the id of a closed session *)

(** C3, as the code has it.  Take a run in which [randomUUID] does not
    repeat itself and an id whose transport has fired [onclose] (after
    a DELETE, a disconnect, or any other close).  At every later point,
    on an endpoint path other than [/health], a request that carries
    this id is answered by the listener itself and reaches no session:
    with 400 when it is a GET, a DELETE, or a POST whose body is empty
    or is JSON. *)
Theorem closed_session_id_rejected
    (v : variant) (upstream : Client) (path endpoint_href : string)
    (isInitializeRequest : option json -> bool)
    (tr1 tr2 : list event) (sid : string) (req : request) :
  NoDup (draws (tr1 ++ tr2)) ->
  normalizePath path <> "/health" ->
  In sid (closed (run v upstream path endpoint_href isInitializeRequest tr1)) ->
  req_url req = UrlPath (normalizePath path) ->
  sessionId_of (req_session_header req) = Some sid ->
  let registry :=
    sessions (run v upstream path endpoint_href isInitializeRequest (tr1 ++ tr2)) in
  (forall parsed,
      method_of req = "POST" -> parseJsonBody (req_body req) = inr parsed ->
      listener path endpoint_href isInitializeRequest registry req
      = Respond bad_session_response)
  /\ (method_of req = "GET" \/ method_of req = "DELETE" ->
      listener path endpoint_href isInitializeRequest registry req
      = Respond (plain 400 "Invalid or missing MCP session ID"))
  /\ (exists r, listener path endpoint_href isInitializeRequest registry req = Respond r).
Proof.
  intros Hnd Hpath Hclosed Hurl Hsid registry.
  pose proof (run_consistent v upstream path endpoint_href isInitializeRequest
                (tr1 ++ tr2) Hnd) as Hb.
  pose proof (closed_stays_closed v upstream path endpoint_href isInitializeRequest
                tr1 tr2 sid Hclosed) as Hc.
  assert (Hne : sid <> "") by exact (closed_truthy _ _ _ Hb sid Hc).
  assert (Hget : SessionMap.get registry sid = None).
  { destruct (SessionMap.get registry sid) as [s | ] eqn:Hget; [ | reflexivity].
    destruct (registered_pair _ _ _ Hb sid s Hget) as [_ [_ [_ Hn]]]. contradiction. }
  assert (Htruthy : truthy (Some sid) = true).
  { simpl. apply String.eqb_neq in Hne. rewrite Hne. reflexivity. }
  unfold listener.
  rewrite (listener_on_endpoint path endpoint_href isInitializeRequest registry req Hpath Hurl).
  rewrite Hsid. cbv zeta. rewrite Htruthy, (has_false_get _ _ Hget). simpl.
  split; [ | split].
  - intros parsed Hm Hp. rewrite Hm, Hp. reflexivity.
  - intros [Hm | Hm]; rewrite Hm; reflexivity.
  - destruct (String.eqb (method_of req) "POST").
    + destruct (parseJsonBody (req_body req)) as [e | parsed]; eexists; reflexivity.
    + destruct (String.eqb (method_of req) "GET" || String.eqb (method_of req) "DELETE")%bool;
        eexists; reflexivity.
Qed.

Lemma closed_session_id_rejected_witness :
  listener "/mcp" mcp_href method_is_initialize
    (sessions (demo_run (two_opened ++ first_deleted)))
    (post (HeaderString uuid_a) (JsonText tools_list_body))
  = Respond bad_session_response.
Proof.
  pose proof (closed_session_id_rejected Plain xcode_backend "/mcp" mcp_href
                method_is_initialize
                (two_opened ++ [Incoming (delete_ (HeaderString uuid_a)) Closes])
                [UpstreamError "malformed output";
                 Incoming (post (HeaderString uuid_b) (JsonText tools_list_body)) Answers]
                uuid_a (post (HeaderString uuid_a) (JsonText tools_list_body))
                demo_draws_distinct) as H.
  destruct H as [Hpost _].
  - discriminate.
  - left. reflexivity.
  - reflexivity.
  - reflexivity.
  - apply (Hpost (Some tools_list_body)); reflexivity.
Defined.

(** C3 as stated fails on a POST whose body is not JSON: the parse
    error is raised before the session id is looked at, and the answer
    is 500. *)
Lemma closed_session_malformed_post_500 :
  ~ (forall (tr : list event) (sid : string) (req : request),
        NoDup (draws tr) ->
        In sid (closed (demo_run tr)) ->
        req_url req = UrlPath "/mcp" ->
        sessionId_of (req_session_header req) = Some sid ->
        method_of req = "POST" \/ method_of req = "GET" \/ method_of req = "DELETE" ->
        exists r,
          listener "/mcp" mcp_href method_is_initialize (sessions (demo_run tr)) req
          = Respond r
          /\ statusCode r = 400).
Proof.
  intros H.
  destruct (H (two_opened ++ first_deleted)%list uuid_a
              (post (HeaderString uuid_a) (MalformedText "Unexpected token"))
              demo_draws_distinct) as [r [Hr Hs]].
  - left. reflexivity.
  - reflexivity.
  - reflexivity.
  - left. reflexivity.
  - cbv in Hr. injection Hr as <-. discriminate Hs.
Qed.

(** ** Routing to the session's own server *)

Lemma is_uuid_truthy (sid : string) : is_uuid sid = true -> truthy (Some sid) = true.
Proof. destruct sid; [discriminate | reflexivity]. Qed.

(** C1, as the code has it.  Along every run in which [randomUUID]
    returns distinct UUIDs, take a session registered under [sid].  On
    an endpoint path other than [/health], a POST that carries [sid]
    and a body that is empty or is JSON is handed, with the parsed
    body, to that session's transport, which is the transport that was
    given [sid]; the server connected to it is the one built with it by
    [createSessionServer], and no other registered id shares the pair.
    The handler that server has for [tools/list] returns, for every
    request the SDK hands it, exactly what [upstream.listTools] returns
    on the request's parameters, and its handler for [tools/call] what
    [upstream.callTool] returns, error or not. *)
Theorem session_post_reaches_own_server
    (v : variant) (upstream : Client) (path endpoint_href : string)
    (isInitializeRequest : option json -> bool)
    (tr : list event) (sid : string) (s : TransportSession)
    (req : request) (parsed : option json) :
  NoDup (draws tr) ->
  Forall (fun uuid => is_uuid uuid = true) (draws tr) ->
  normalizePath path <> "/health" ->
  let b := run v upstream path endpoint_href isInitializeRequest tr in
  SessionMap.get (sessions b) sid = Some s ->
  req_url req = UrlPath (normalizePath path) ->
  method_of req = "POST" ->
  sessionId_of (req_session_header req) = Some sid ->
  parseJsonBody (req_body req) = inr parsed ->
  listener path endpoint_href isInitializeRequest (sessions b) req
  = HandleRequest s (Some parsed)
  /\ sessionId_of_transport (transport_sessionId b) (transport s) = Some sid
  /\ server_oid s = transport s
  /\ (forall sid' s',
        SessionMap.get (sessions b) sid' = Some s' ->
        transport s' = transport s \/ server_oid s' = server_oid s -> sid' = sid)
  /\ server s = createSessionServer upstream
  /\ (forall request : rpc_request,
        on_ListTools (server s) request = listTools upstream (params request)
        /\ on_CallTool (server s) request = callTool upstream (params request)).
Proof.
  intros Hnd Huuid Hpath b Hget Hurl Hmethod Hsid Hbody.
  pose proof (run_consistent v upstream path endpoint_href isInitializeRequest tr Hnd)
    as Hb.
  fold b in Hb.
  destruct (registered_pair _ _ _ Hb sid s Hget) as [Ht [Hoid [Hsrv _]]].
  assert (Htruthy : truthy (Some sid) = true).
  { apply is_uuid_truthy.
    destruct (transports_issued _ _ _ Hb _ _ Ht) as [Hissued _].
    apply (issued_seen _ _ _ Hb) in Hissued.
    rewrite Forall_forall in Huuid. apply Huuid. exact Hissued. }
  split; [ | split; [exact Ht | split; [exact Hoid | split; [ | split; [exact Hsrv | ]]]]].
  - unfold listener.
    rewrite (listener_on_endpoint path endpoint_href isInitializeRequest
               (sessions b) req Hpath Hurl).
    rewrite Hmethod, Hbody, Hsid. cbv zeta.
    rewrite Htruthy, (has_true_get _ _ _ Hget), Hget. reflexivity.
  - intros sid' s' Hget' Hsame.
    destruct (registered_pair _ _ _ Hb sid' s' Hget') as [Ht' [Hoid' _]].
    assert (Heq : transport s' = transport s) by (destruct Hsame; congruence).
    rewrite Heq in Ht'. congruence.
  - intros request. rewrite Hsrv. split; reflexivity.
Qed.

Lemma session_post_reaches_own_server_witness :
  exists s,
    listener "/mcp" mcp_href method_is_initialize
      (sessions (demo_run (two_opened ++ first_deleted)))
      (post (HeaderString uuid_b) (JsonText tools_list_body))
    = HandleRequest s (Some (Some tools_list_body))
    /\ on_ListTools (server s) {| rpc_method := "tools/list"; params := None |}
       = Resolved xcode_tools.
Proof.
  exists {| server_oid := 1; server := createSessionServer xcode_backend; transport := 1 |}.
  pose proof (session_post_reaches_own_server Plain xcode_backend "/mcp" mcp_href
                method_is_initialize (two_opened ++ first_deleted) uuid_b
                {| server_oid := 1; server := createSessionServer xcode_backend;
                   transport := 1 |}
                (post (HeaderString uuid_b) (JsonText tools_list_body))
                (Some tools_list_body) demo_draws_distinct) as H.
  destruct H as [Hroute [_ [_ [_ [_ Hforward]]]]].
  - simpl. repeat constructor.
  - discriminate.
  - reflexivity.
  - reflexivity.
  - reflexivity.
  - reflexivity.
  - reflexivity.
  - split; [exact Hroute | ].
    apply (Hforward {| rpc_method := "tools/list"; params := None |}).
Defined.

(** C1 as stated fails on a POST whose body is not JSON: although it
    carries the id of a registered session, the parse error is raised
    before the registry is looked at, and the request is answered 500
    and handed to no transport. *)
Lemma active_session_malformed_post_not_routed :
  ~ (forall (tr : list event) (sid : string) (s : TransportSession) (req : request),
        NoDup (draws tr) ->
        Forall (fun uuid => is_uuid uuid = true) (draws tr) ->
        SessionMap.get (sessions (demo_run tr)) sid = Some s ->
        req_url req = UrlPath "/mcp" ->
        method_of req = "POST" ->
        sessionId_of (req_session_header req) = Some sid ->
        exists parsed,
          listener "/mcp" mcp_href method_is_initialize (sessions (demo_run tr)) req
          = HandleRequest s parsed).
Proof.
  intros H.
  destruct (H (two_opened ++ first_deleted)%list uuid_b
              {| server_oid := 1; server := createSessionServer xcode_backend;
                 transport := 1 |}
              (post (HeaderString uuid_b) (MalformedText "Unexpected token"))
              demo_draws_distinct) as [parsed Hr].
  - simpl. repeat constructor.
  - reflexivity.
  - reflexivity.
  - reflexivity.
  - reflexivity.
  - cbv in Hr. discriminate Hr.
Qed.

(** * Further properties of the bridge *)

(** ** Paths *)

(** [normalizePath] yields a path that starts with a slash, leaves such
    a path alone, and applying it twice changes nothing more. *)
Theorem normalizePath_leading_slash (value : string) :
  String.prefix "/" (normalizePath value) = true
  /\ normalizePath (normalizePath value) = normalizePath value
  /\ (String.prefix "/" value = true -> normalizePath value = value).
Proof.
  assert (H1 : String.prefix "/" (normalizePath value) = true).
  { unfold normalizePath.
    destruct (String.prefix "/" value) eqn:E; simpl;
      [exact E | destruct value; reflexivity]. }
  split; [exact H1 | split].
  - unfold normalizePath at 1. rewrite H1. reflexivity.
  - intros H. unfold normalizePath. rewrite H. reflexivity.
Qed.

(** ** What the listener hands over *)

(** The listener hands a request to a transport only on the endpoint
    path, only for POST, GET and DELETE, and only to the session
    registered under the non-empty id the request carries: POST with
    the parsed body, GET and DELETE without one.  It builds a new
    session only for a POST on the endpoint path that carries no id (or
    an empty one) and whose parsed body the SDK recognizes as an
    initialization. *)
Theorem listener_hands_over_only_registered
    (path endpoint_href : string) (isInitializeRequest : option json -> bool)
    (registry : SessionMap.t) (req : request) :
  match listener path endpoint_href isInitializeRequest registry req with
  | Respond _ => True
  | HandleRequest session parsed =>
      req_url req = UrlPath (normalizePath path)
      /\ (exists sid,
            sessionId_of (req_session_header req) = Some sid
            /\ sid <> ""
            /\ SessionMap.get registry sid = Some session)
      /\ ((method_of req = "POST"
           /\ exists p, parsed = Some p /\ parseJsonBody (req_body req) = inr p)
          \/ ((method_of req = "GET" \/ method_of req = "DELETE") /\ parsed = None))
  | NewSession parsed =>
      req_url req = UrlPath (normalizePath path)
      /\ method_of req = "POST"
      /\ parseJsonBody (req_body req) = inr parsed
      /\ truthy (sessionId_of (req_session_header req)) = false
      /\ isInitializeRequest parsed = true
  end.
Proof.
  unfold listener, listener_try.
  destruct (req_url req) as [ | m | pathname ]; simpl; try exact I.
  destruct (String.eqb pathname "/health"); simpl; try exact I.
  destruct (String.eqb pathname (normalizePath path)) eqn:Hp; simpl; try exact I.
  apply String.eqb_eq in Hp. subst pathname.
  fold (method_of req).
  assert (Hknown : forall session,
            match sessionId_of (req_session_header req) with
            | Some sid =>
                if andb (truthy (sessionId_of (req_session_header req)))
                        (SessionMap.has registry sid)
                then SessionMap.get registry sid else None
            | None => None
            end = Some session ->
            exists sid,
              sessionId_of (req_session_header req) = Some sid
              /\ sid <> "" /\ SessionMap.get registry sid = Some session).
  { intros session. destruct (sessionId_of (req_session_header req)) as [sid | ];
      [ | discriminate].
    destruct (truthy (Some sid)) eqn:Ht; simpl; [ | discriminate].
    destruct (SessionMap.has registry sid); [ | discriminate].
    intros Hget. exists sid. repeat split; [ | exact Hget].
    intros ->. discriminate Ht. }
  destruct (String.eqb (method_of req) "POST") eqn:Hpost.
  - apply String.eqb_eq in Hpost.
    destruct (parseJsonBody (req_body req)) as [e | parsed]; simpl; [exact I | ].
    destruct (match sessionId_of (req_session_header req) with
              | Some sid =>
                  if andb (truthy (sessionId_of (req_session_header req)))
                          (SessionMap.has registry sid)
                  then SessionMap.get registry sid else None
              | None => None
              end) as [session | ] eqn:Hk.
    + split; [reflexivity | split; [exact (Hknown session eq_refl) | ]].
      left. split; [exact Hpost | ]. exists parsed. split; reflexivity.
    + destruct (truthy (sessionId_of (req_session_header req))) eqn:Ht; simpl;
        [exact I | ].
      destruct (isInitializeRequest parsed) eqn:Hi; simpl; [ | exact I].
      repeat split; assumption.
  - simpl.
    destruct (String.eqb (method_of req) "GET") eqn:Hget;
      destruct (String.eqb (method_of req) "DELETE") eqn:Hdel; simpl; try exact I;
      (destruct (match sessionId_of (req_session_header req) with
                 | Some sid =>
                     if andb (truthy (sessionId_of (req_session_header req)))
                             (SessionMap.has registry sid)
                     then SessionMap.get registry sid else None
                 | None => None
                 end) as [session | ] eqn:Hk; [ | exact I]);
      (split; [reflexivity | split; [exact (Hknown session eq_refl) | ]]);
      right; (split; [ | reflexivity]);
      try (left; apply String.eqb_eq; exact Hget);
      right; apply String.eqb_eq; exact Hdel.
Qed.

(** ** Sessions over a run *)

(** Along every run in which [randomUUID] returns distinct UUIDs, a GET
    or a DELETE on the endpoint path (other than [/health]) that
    carries the id of a registered session is handed, without a body,
    to that session's transport. *)
Theorem session_get_delete_reach_transport
    (v : variant) (upstream : Client) (path endpoint_href : string)
    (isInitializeRequest : option json -> bool)
    (tr : list event) (sid : string) (s : TransportSession) (req : request) :
  NoDup (draws tr) ->
  Forall (fun uuid => is_uuid uuid = true) (draws tr) ->
  normalizePath path <> "/health" ->
  let b := run v upstream path endpoint_href isInitializeRequest tr in
  SessionMap.get (sessions b) sid = Some s ->
  req_url req = UrlPath (normalizePath path) ->
  method_of req = "GET" \/ method_of req = "DELETE" ->
  sessionId_of (req_session_header req) = Some sid ->
  listener path endpoint_href isInitializeRequest (sessions b) req
  = HandleRequest s None
  /\ sessionId_of_transport (transport_sessionId b) (transport s) = Some sid.
Proof.
  intros Hnd Huuid Hpath b Hget Hurl Hmethod Hsid.
  pose proof (run_consistent v upstream path endpoint_href isInitializeRequest tr Hnd)
    as Hb.
  fold b in Hb.
  destruct (registered_pair _ _ _ Hb sid s Hget) as [Ht _].
  assert (Htruthy : truthy (Some sid) = true).
  { apply is_uuid_truthy.
    destruct (transports_issued _ _ _ Hb _ _ Ht) as [Hissued _].
    apply (issued_seen _ _ _ Hb) in Hissued.
    rewrite Forall_forall in Huuid. apply Huuid. exact Hissued. }
  split; [ | exact Ht].
  unfold listener.
  rewrite (listener_on_endpoint path endpoint_href isInitializeRequest
             (sessions b) req Hpath Hurl).
  rewrite Hsid. cbv zeta.
  rewrite Htruthy, (has_true_get _ _ _ Hget), Hget.
  destruct Hmethod as [Hm | Hm]; rewrite Hm; reflexivity.
Qed.

Lemma session_get_delete_reach_transport_witness :
  listener "/mcp" mcp_href method_is_initialize
    (sessions (demo_run (two_opened ++ first_deleted)))
    (delete_ (HeaderString uuid_b))
  = HandleRequest
      {| server_oid := 1; server := createSessionServer xcode_backend; transport := 1 |}
      None.
Proof.
  pose proof (session_get_delete_reach_transport Plain xcode_backend "/mcp" mcp_href
                method_is_initialize (two_opened ++ first_deleted) uuid_b
                {| server_oid := 1; server := createSessionServer xcode_backend;
                   transport := 1 |}
                (delete_ (HeaderString uuid_b)) demo_draws_distinct) as H.
  destruct H as [Hroute _].
  - simpl. repeat constructor.
  - discriminate.
  - reflexivity.
  - reflexivity.
  - right. reflexivity.
  - reflexivity.
  - exact Hroute.
Defined.

(** An initialization the transport accepts, answered with the id
    [uuid], registers the new session under [uuid]; from then on a POST
    that carries [uuid] is handed to the session just built.  (Endpoint
    path other than [/health]; bodies that are empty or JSON.) *)
Theorem initialization_then_post_round_trip
    (v : variant) (upstream : Client) (path endpoint_href : string)
    (isInitializeRequest : option json -> bool)
    (b : bridge) (init : request) (parsed : option json) (uuid : string)
    (req : request) (parsed' : option json) :
  normalizePath path <> "/health" ->
  req_url init = UrlPath (normalizePath path) ->
  method_of init = "POST" ->
  truthy (sessionId_of (req_session_header init)) = false ->
  parseJsonBody (req_body init) = inr parsed ->
  isInitializeRequest parsed = true ->
  is_uuid uuid = true ->
  req_url req = UrlPath (normalizePath path) ->
  method_of req = "POST" ->
  sessionId_of (req_session_header req) = Some uuid ->
  parseJsonBody (req_body req) = inr parsed' ->
  let b' := step v upstream path endpoint_href isInitializeRequest b
              (Incoming init (Initializes uuid)) in
  let built := {| server_oid := next_oid b;
                  server := createSessionServer upstream;
                  transport := next_oid b |} in
  SessionMap.get (sessions b') uuid = Some built
  /\ listener path endpoint_href isInitializeRequest (sessions b') req
     = HandleRequest built (Some parsed').
Proof.
  intros Hpath Hurl Hm Hnoid Hbody Hinit Huuid Hurl' Hm' Hsid' Hbody' b' built.
  assert (Hnew : listener path endpoint_href isInitializeRequest (sessions b) init
                 = NewSession parsed).
  { unfold listener.
    rewrite (listener_on_endpoint path endpoint_href isInitializeRequest
               (sessions b) init Hpath Hurl).
    rewrite Hm, Hbody. cbv zeta. rewrite Hnoid.
    destruct (sessionId_of (req_session_header init)); simpl; rewrite Hinit;
      reflexivity. }
  assert (Hget : SessionMap.get (sessions b') uuid = Some built).
  { unfold b', step. rewrite Hnew. simpl. apply get_set_same. }
  split; [exact Hget | ].
  unfold listener.
  rewrite (listener_on_endpoint path endpoint_href isInitializeRequest
             (sessions b') req Hpath Hurl').
  rewrite Hm', Hbody', Hsid'. cbv zeta.
  rewrite (is_uuid_truthy uuid Huuid), (has_true_get _ _ _ Hget), Hget. reflexivity.
Qed.

Lemma initialization_then_post_round_trip_witness :
  listener "/mcp" mcp_href method_is_initialize
    (sessions (step Plain xcode_backend "/mcp" mcp_href method_is_initialize started
                 (Incoming (post HeaderAbsent (JsonText initialize_body))
                    (Initializes uuid_a))))
    (post (HeaderString uuid_a) (JsonText tools_list_body))
  = HandleRequest
      {| server_oid := 0; server := createSessionServer xcode_backend; transport := 0 |}
      (Some (Some tools_list_body)).
Proof.
  apply (initialization_then_post_round_trip Plain xcode_backend "/mcp" mcp_href
           method_is_initialize started
           (post HeaderAbsent (JsonText initialize_body)) (Some initialize_body) uuid_a
           (post (HeaderString uuid_a) (JsonText tools_list_body))
           (Some tools_list_body));
    try reflexivity.
  discriminate.
Defined.

(** One event changes the registry entry of at most one id: the id it
    closes or the id it issues.  Every other session stays registered
    as it was, whichever request, close or backend error occurs. *)
Theorem step_touches_one_session
    (v : variant) (upstream : Client) (path endpoint_href : string)
    (isInitializeRequest : option json -> bool)
    (b : bridge) (e : event) (sid : string) :
  let b' := step v upstream path endpoint_href isInitializeRequest b e in
  SessionMap.get (sessions b') sid = SessionMap.get (sessions b) sid
  \/ closed b' = sid :: closed b
  \/ issued b' = sid :: issued b.
Proof.
  intros b'. unfold b'.
  apply (step_frame v upstream path endpoint_href isInitializeRequest b e sid).
Qed.

(** The registry gains an id only when a fresh transport confirms it:
    after any event, an id in the registry was there before, or the
    event is an initialization without session id that the transport
    answered with this id. *)
Theorem registered_only_when_confirmed
    (v : variant) (upstream : Client) (path endpoint_href : string)
    (isInitializeRequest : option json -> bool)
    (b : bridge) (e : event) (sid : string) :
  In sid (SessionMap.keys
            (sessions (step v upstream path endpoint_href isInitializeRequest b e))) ->
  In sid (SessionMap.keys (sessions b))
  \/ exists req parsed,
       e = Incoming req (Initializes sid)
       /\ listener path endpoint_href isInitializeRequest (sessions b) req
          = NewSession parsed.
Proof.
  assert (Hclose : forall oid,
            In sid (SessionMap.keys (sessions (onclose v b oid))) ->
            In sid (SessionMap.keys (sessions b))).
  { intros oid. unfold onclose.
    destruct (sessionId_of_transport (transport_sessionId b) oid) as [sid' | ];
      [ | auto].
    destruct (negb (truthy (Some sid'))); [auto | ].
    destruct v; simpl; [apply keys_delete_incl | ].
    destruct (SessionMap.get (sessions b) sid'); simpl; [apply keys_delete_incl | auto]. }
  destruct e as [req reaction | oid | m]; simpl.
  - destruct (listener path endpoint_href isInitializeRequest (sessions b) req)
      as [r | session parsed | parsed] eqn:Hl.
    + intros Hin. left. exact Hin.
    + destruct reaction; intros Hin; left; try exact Hin.
      apply (Hclose (transport session)). exact Hin.
    + destruct reaction as [ | uuid | ]; simpl; try (intros Hin; left; exact Hin).
      intros Hin. apply keys_set in Hin as [-> | Hin]; [ | left; exact Hin].
      right. exists req, parsed. split; [reflexivity | exact Hl].
  - intros Hin. left. apply (Hclose oid). exact Hin.
  - intros Hin. left. exact Hin.
Qed.

Lemma registered_only_when_confirmed_witness :
  In uuid_a (SessionMap.keys (sessions started))
  \/ exists req parsed,
       Incoming (post HeaderAbsent (JsonText initialize_body)) (Initializes uuid_a)
       = Incoming req (Initializes uuid_a)
       /\ listener "/mcp" mcp_href method_is_initialize (sessions started) req
          = NewSession parsed.
Proof.
  apply (registered_only_when_confirmed Plain xcode_backend "/mcp" mcp_href
           method_is_initialize started
           (Incoming (post HeaderAbsent (JsonText initialize_body)) (Initializes uuid_a))
           uuid_a).
  simpl. left. reflexivity.
Defined.

(** ** Startup and shutdown, further *)

(** Whatever the collaborators answer, [startMcpBridge] creates the
    HTTP server only after [new URL] accepted the endpoint and the
    backend connection succeeded (its first call); [writeConfig] is
    called only by the [Saving] variant with [saveEndpoint] set, after
    the connection succeeded, and with the serialized endpoint; and
    when the call resolves, the endpoint returned is that one and the
    last call bound the listener on the configured port and host. *)
Theorem startup_connects_before_listening
    (Number_toString : jsnum -> string)
    (URL_href : string -> exn + string)
    (v : variant) (options : McpBridgeStartOptions) (env : environment) :
  let parsed := URL_href (endpoint_text Number_toString options) in
  let '(calls, result) := startMcpBridge Number_toString URL_href v options env in
  (existsb touches_listener calls = true ->
     connect_error env = None
     /\ hd_error calls = Some upstream_connect
     /\ exists endpoint, parsed = inr endpoint)
  /\ (forall written, In (writeConfig written) calls ->
        v = Saving /\ saveEndpoint options = true
        /\ connect_error env = None /\ parsed = inr written)
  /\ (forall served, result = inr served ->
        parsed = inr served
        /\ connect_error env = None
        /\ listen_error env = None
        /\ last calls upstream_connect = server_listen (port options) (host options)).
Proof.
  unfold startMcpBridge.
  destruct (port_rejected (port options)).
  { simpl. repeat split; try discriminate; contradiction. }
  destruct (URL_href (endpoint_text Number_toString options)) as [bad | endpoint].
  { simpl. repeat split; try discriminate; contradiction. }
  destruct v, (connect_error env), (saveEndpoint options), (config_error env),
    (listen_error env); simpl;
    (split; [ intros H; try discriminate H; repeat split; eexists; reflexivity | ]);
    (split; [ intros written H;
              repeat (destruct H as [H | H]; [try discriminate H | ]);
              try contradiction;
              injection H as <-; repeat split; reflexivity | ]);
    intros served H; try discriminate H; injection H as <-; repeat split; reflexivity.
Qed.

(** When binding the listener fails (the port is taken, say),
    [startMcpBridge] rejects with the listener's error after the server
    was created, and makes no [close] call on the backend client or its
    transport. *)
Theorem listen_failure_leaves_backend_open
    (Number_toString : jsnum -> string)
    (URL_href : string -> exn + string)
    (v : variant) (options : McpBridgeStartOptions) (env : environment)
    (endpoint : string) (e : exn) :
  port_rejected (port options) = false ->
  URL_href (endpoint_text Number_toString options) = inr endpoint ->
  connect_error env = None ->
  config_error env = None ->
  listen_error env = Some e ->
  let '(calls, result) := startMcpBridge Number_toString URL_href v options env in
  result = inl e
  /\ existsb touches_listener calls = true
  /\ existsb releases_backend calls = false.
Proof.
  intros Hport Hurl Hconn Hconf Hlisten. unfold startMcpBridge.
  rewrite Hport, Hurl, Hconn, Hconf, Hlisten.
  destruct v, (saveEndpoint options); simpl; repeat split; reflexivity.
Qed.

Definition port_taken : environment :=
  {| connect_error := None;
     config_error := None;
     listen_error := Some (Error "listen EADDRINUSE: address already in use");
     close_rejects := fun _ => false |}.

Lemma listen_failure_leaves_backend_open_witness :
  snd (startMcpBridge (fun _ => "49321") demo_href Saving demo_options port_taken)
  = inl (Error "listen EADDRINUSE: address already in use").
Proof.
  pose proof (listen_failure_leaves_backend_open (fun _ => "49321") demo_href Saving
                demo_options port_taken "http://127.0.0.1:49321/mcp"
                (Error "listen EADDRINUSE: address already in use")
                eq_refl eq_refl eq_refl eq_refl eq_refl) as H.
  destruct (startMcpBridge (fun _ => "49321") demo_href Saving demo_options port_taken)
    as [calls result].
  destruct H as [Hr _]. exact Hr.
Defined.


(** * The command-line helpers *)

(** ** JavaScript string operations

    A string is read as its sequence of code units, each below 256. *)

(** The white space [String.prototype.trim] removes, among the code
    units below 256: tab to carriage return, space, no-break space. *)
Definition is_white_space (c : ascii) : bool :=
  let n := nat_of_ascii c in
  orb (andb (Nat.leb 9 n) (Nat.leb n 13)) (orb (Nat.eqb n 32) (Nat.eqb n 160)).

Fixpoint trimStart (s : string) : string :=
  match s with
  | EmptyString => EmptyString
  | String c rest => if is_white_space c then trimStart rest else s
  end.

Fixpoint trimEnd (s : string) : string :=
  match s with
  | EmptyString => EmptyString
  | String c rest =>
      match trimEnd rest with
      | EmptyString => if is_white_space c then EmptyString else String c EmptyString
      | kept => String c kept
      end
  end.

Definition trim (s : string) : string := trimEnd (trimStart s).

(** Position of the first occurrence of a character. *)
Fixpoint index_nat (c : ascii) (s : string) : option nat :=
  match s with
  | EmptyString => None
  | String x rest => if Ascii.eqb x c then Some O else option_map S (index_nat c rest)
  end.

(** [s.indexOf(c)] for a one-character [c]: [-1] when absent. *)
Definition indexOf (c : ascii) (s : string) : Z :=
  match index_nat c s with
  | Some n => Z.of_nat n
  | None => -1
  end.

(** [s.slice(start, stop)]: negative positions count from the end, and
    positions are clamped to the string. *)
Definition slice (s : string) (start stop : Z) : string :=
  let len := Z.of_nat (String.length s) in
  let clamp i := if i <? 0 then Z.max (len + i) 0 else Z.min i len in
  String.substring (Z.to_nat (clamp start)) (Z.to_nat (clamp stop - clamp start)) s.

(** The text before the first occurrence of [c]; all of [s] when [c]
    does not occur. *)
Fixpoint before (c : ascii) (s : string) : string :=
  match s with
  | EmptyString => EmptyString
  | String x rest => if Ascii.eqb x c then EmptyString else String x (before c rest)
  end.

Lemma trimStart_head (s : string) (c : ascii) (rest : string) :
  trimStart s = String c rest -> is_white_space c = false.
Proof.
  induction s as [ | x s' IH]; simpl; [discriminate | ].
  destruct (is_white_space x) eqn:E; [exact IH | ].
  intros H. injection H as <- _. exact E.
Qed.

Lemma trimStart_fixed (c : ascii) (rest : string) :
  is_white_space c = false -> trimStart (String c rest) = String c rest.
Proof. intros H. simpl. rewrite H. reflexivity. Qed.

Lemma trimEnd_head (c : ascii) (rest : string) :
  is_white_space c = false -> exists kept, trimEnd (String c rest) = String c kept.
Proof.
  intros H. simpl. destruct (trimEnd rest) as [ | y kept].
  - rewrite H. exists EmptyString. reflexivity.
  - exists (String y kept). reflexivity.
Qed.

Lemma trimEnd_idempotent (s : string) : trimEnd (trimEnd s) = trimEnd s.
Proof.
  induction s as [ | c rest IH]; simpl; [reflexivity | ].
  destruct (trimEnd rest) as [ | y kept] eqn:E.
  - destruct (is_white_space c) eqn:Ec; simpl; [reflexivity | ].
    rewrite Ec. reflexivity.
  - change (trimEnd (String c (String y kept)))
      with (match trimEnd (String y kept) with
            | EmptyString => if is_white_space c then EmptyString else String c EmptyString
            | k => String c k
            end).
    rewrite IH. reflexivity.
Qed.

Lemma trim_head (s : string) (c : ascii) (rest : string) :
  trim s = String c rest -> is_white_space c = false.
Proof.
  unfold trim. destruct (trimStart s) as [ | x s'] eqn:E; [discriminate | ].
  pose proof (trimStart_head s x s' E) as Hx.
  destruct (trimEnd_head x s' Hx) as [kept Hk]. rewrite Hk.
  intros H. injection H as <- _. exact Hx.
Qed.

Lemma trim_idempotent (s : string) : trim (trim s) = trim s.
Proof.
  destruct (trim s) as [ | c rest] eqn:E; [reflexivity | ].
  pose proof (trim_head s c rest E) as Hc.
  unfold trim at 1. rewrite (trimStart_fixed c rest Hc).
  rewrite <- E. unfold trim. apply trimEnd_idempotent.
Qed.

Lemma trimEnd_split (s : string) : exists tail, s = trimEnd s ++ tail.
Proof.
  induction s as [ | c rest [tail IH]]; simpl.
  - exists EmptyString. reflexivity.
  - destruct (trimEnd rest) as [ | y kept].
    + destruct (is_white_space c).
      * exists (String c rest). reflexivity.
      * exists rest. reflexivity.
    + exists tail. simpl. rewrite IH at 1. reflexivity.
Qed.

Lemma prefix_append (a b : string) : String.prefix a (a ++ b) = true.
Proof.
  induction a as [ | c a' IH]; simpl.
  - destruct b; reflexivity.
  - destruct (ascii_dec c c) as [_ | Hne]; [exact IH | contradiction].
Qed.

Lemma append_assoc (a b c : string) : (a ++ b) ++ c = a ++ (b ++ c).
Proof. induction a as [ | x a' IH]; simpl; [reflexivity | rewrite IH; reflexivity]. Qed.

Lemma index_nat_append_none (c : ascii) (a b : string) :
  index_nat c (a ++ b) = None -> index_nat c a = None.
Proof.
  induction a as [ | x a' IH]; simpl; [reflexivity | ].
  destruct (Ascii.eqb x c); [discriminate | ].
  destruct (index_nat c (a' ++ b)); [discriminate | ].
  intros _. rewrite IH; reflexivity.
Qed.

Lemma before_split (c : ascii) (s : string) (n : nat) :
  index_nat c s = Some n ->
  exists rest, s = before c s ++ String c rest /\ String.length (before c s) = n.
Proof.
  revert n. induction s as [ | x s' IH]; simpl; intros n; [discriminate | ].
  destruct (Ascii.eqb x c) eqn:E.
  - intros H. injection H as <-. apply Ascii.eqb_eq in E. subst x.
    exists s'. split; reflexivity.
  - destruct (index_nat c s') as [m | ]; [ | discriminate].
    intros H. injection H as <-.
    destruct (IH m eq_refl) as [rest [Hs Hl]].
    exists rest. simpl. split; [rewrite Hs at 1; reflexivity | rewrite Hl; reflexivity].
Qed.

Lemma before_has_none (c : ascii) (s : string) : index_nat c (before c s) = None.
Proof.
  induction s as [ | x s' IH]; simpl; [reflexivity | ].
  destruct (Ascii.eqb x c) eqn:E; simpl; [reflexivity | ].
  rewrite E, IH. reflexivity.
Qed.

Lemma substring_0_append (a b : string) :
  String.substring 0 (String.length a) (a ++ b) = a.
Proof.
  induction a as [ | x a' IH]; simpl.
  - destruct b; reflexivity.
  - rewrite IH. reflexivity.
Qed.

Lemma length_append (a b : string) :
  String.length (a ++ b) = (String.length a + String.length b)%nat.
Proof. induction a as [ | x a' IH]; simpl; [reflexivity | rewrite IH; reflexivity]. Qed.

Lemma slice_to_first (c : ascii) (s : string) :
  0 <= indexOf c s -> slice s 0 (indexOf c s) = before c s.
Proof.
  unfold indexOf. destruct (index_nat c s) as [n | ] eqn:E; [ | lia].
  intros _. destruct (before_split c s n E) as [rest [Hs Hl]].
  unfold slice.
  assert (Hlen : (n <= String.length s)%nat).
  { rewrite Hs, length_append, Hl. lia. }
  replace (0 <? 0) with false by reflexivity.
  replace (Z.of_nat n <? 0) with false by (symmetry; apply Z.ltb_ge; lia).
  rewrite Z.min_l by lia. rewrite Z.min_l by lia.
  rewrite Z.sub_0_r, Nat2Z.id. simpl Z.to_nat.
  rewrite Hs at 1. rewrite <- Hl. apply substring_0_append.
Qed.

(** ** [parseTestSpecifier] *)

Record TestSpecifier : Type := {
  targetName : string;
  testIdentifier : string
}.

Definition invalid_test_specifier (input : string) : exn :=
  Error ("Invalid test specifier '" ++ input
         ++ "'. Expected format: TargetName/testName()").

Definition parseTestSpecifier (input : string) : exn + TestSpecifier :=
  let value := trim input in
  let slash := indexOf "/"%char value in
  if slash <=? 0 then inl (invalid_test_specifier input)
  else
    let targetName := trim (slice value 0 slash) in
    if String.eqb targetName "" then inl (invalid_test_specifier input)
    else inr {| targetName := targetName; testIdentifier := value |}.

Lemma target_of_trimmed (value : string) :
  0 < indexOf "/"%char (trim value) ->
  exists c kept,
    is_white_space c = false
    /\ trim (slice (trim value) 0 (indexOf "/"%char (trim value))) = String c kept
    /\ String c kept = trimEnd (before "/"%char (trim value)).
Proof.
  intros Hpos. rewrite slice_to_first by lia.
  destruct (trim value) as [ | x rest] eqn:E; [discriminate Hpos | ].
  pose proof (trim_head value x rest E) as Hx.
  unfold indexOf in Hpos. simpl in Hpos. simpl before.
  destruct (Ascii.eqb x "/"%char); [simpl in Hpos; lia | ].
  destruct (trimEnd_head x (before "/"%char rest) Hx) as [kept Hk].
  exists x, kept. split; [exact Hx | ].
  unfold trim. rewrite (trimStart_fixed x _ Hx). rewrite Hk. split; reflexivity.
Qed.

Lemma parseTestSpecifier_cases (input : string) :
  (indexOf "/"%char (trim input) <= 0 ->
     parseTestSpecifier input = inl (invalid_test_specifier input))
  /\ (0 < indexOf "/"%char (trim input) ->
      parseTestSpecifier input
      = inr {| targetName := trimEnd (before "/"%char (trim input));
               testIdentifier := trim input |}).
Proof.
  unfold parseTestSpecifier. split; intros H.
  - apply Z.leb_le in H. rewrite H. reflexivity.
  - assert (Hf : (indexOf "/"%char (trim input) <=? 0) = false) by (apply Z.leb_gt; exact H).
    rewrite Hf. destruct (target_of_trimmed input H) as [c [kept [_ [Ht Hk]]]].
    rewrite Ht. simpl String.eqb. rewrite Hk. reflexivity.
Qed.

(** [parseTestSpecifier] is decided by the first slash of the trimmed
    input alone: without a slash, or with the slash in first position,
    it throws; otherwise it returns the trimmed input as test
    identifier and, as target name, the text before the first slash
    without its trailing white space.  The second check of the code,
    for an empty target name, never fires. *)
Theorem parseTestSpecifier_decided_by_first_slash (input : string) :
  (indexOf "/"%char (trim input) <= 0 ->
     parseTestSpecifier input = inl (invalid_test_specifier input))
  /\ (0 < indexOf "/"%char (trim input) ->
      parseTestSpecifier input
      = inr {| targetName := trimEnd (before "/"%char (trim input));
               testIdentifier := trim input |}
      /\ trimEnd (before "/"%char (trim input)) <> "").
Proof.
  split; [apply parseTestSpecifier_cases | ].
  intros H. split; [apply parseTestSpecifier_cases; exact H | ].
  destruct (target_of_trimmed input H) as [c [kept [_ [_ Hk]]]].
  rewrite <- Hk. discriminate.
Qed.

(** What [parseTestSpecifier] returns is well formed: the test
    identifier is the trimmed input; the target name is not empty, has
    no white space at either end, contains no slash, and the test
    identifier begins with it. *)
Theorem parseTestSpecifier_result_shape (input : string) (r : TestSpecifier) :
  parseTestSpecifier input = inr r ->
  testIdentifier r = trim input
  /\ targetName r <> ""
  /\ trim (targetName r) = targetName r
  /\ indexOf "/"%char (targetName r) = -1
  /\ String.prefix (targetName r) (testIdentifier r) = true.
Proof.
  intros Hr.
  destruct (Z.leb_spec (indexOf "/"%char (trim input)) 0) as [Hle | Hpos].
  { rewrite (proj1 (parseTestSpecifier_cases input) Hle) in Hr.
    discriminate Hr. }
  rewrite (proj2 (parseTestSpecifier_cases input) Hpos) in Hr.
  injection Hr as <-. simpl.
  destruct (target_of_trimmed input Hpos) as [c [kept [Hc [_ Hk]]]].
  split; [reflexivity | ]. rewrite <- Hk.
  split; [discriminate | ]. split.
  - unfold trim. rewrite (trimStart_fixed c kept Hc). rewrite Hk.
    apply trimEnd_idempotent.
  - destruct (trimEnd_split (before "/"%char (trim input))) as [tail Htail].
    rewrite <- Hk in Htail.
    unfold indexOf in Hpos.
    destruct (index_nat "/"%char (trim input)) as [n | ] eqn:En; [ | lia].
    destruct (before_split "/"%char (trim input) n En) as [rest [Hs _]].
    split.
    + unfold indexOf.
      rewrite (index_nat_append_none "/"%char (String c kept) tail); [reflexivity | ].
      rewrite <- Htail. apply before_has_none.
    + rewrite Hs, Htail, append_assoc. apply prefix_append.
Qed.

Lemma parseTestSpecifier_result_shape_witness :
  testIdentifier {| targetName := "AppTests"; testIdentifier := "AppTests /testExample()" |}
  = trim "  AppTests /testExample()  ".
Proof.
  apply (parseTestSpecifier_result_shape "  AppTests /testExample()  "
           {| targetName := "AppTests"; testIdentifier := "AppTests /testExample()" |}).
  reflexivity.
Defined.

(** Parsing the test identifier that [parseTestSpecifier] returned
    gives the same result again. *)
Theorem parseTestSpecifier_reparse (input : string) (r : TestSpecifier) :
  parseTestSpecifier input = inr r ->
  parseTestSpecifier (testIdentifier r) = inr r.
Proof.
  intros Hr.
  destruct (Z.leb_spec (indexOf "/"%char (trim input)) 0) as [Hle | Hpos].
  { rewrite (proj1 (parseTestSpecifier_cases input) Hle) in Hr.
    discriminate Hr. }
  rewrite (proj2 (parseTestSpecifier_cases input) Hpos) in Hr.
  injection Hr as <-. simpl.
  assert (Hpos' : 0 < indexOf "/"%char (trim (trim input)))
    by (rewrite trim_idempotent; exact Hpos).
  rewrite (proj2 (parseTestSpecifier_cases (trim input)) Hpos').
  rewrite trim_idempotent. reflexivity.
Qed.

Lemma parseTestSpecifier_reparse_witness :
  parseTestSpecifier "AppTests /testExample()"
  = inr {| targetName := "AppTests"; testIdentifier := "AppTests /testExample()" |}.
Proof.
  apply (parseTestSpecifier_reparse "  AppTests /testExample()  "
           {| targetName := "AppTests"; testIdentifier := "AppTests /testExample()" |}).
  reflexivity.
Defined.

Example parseTestSpecifier_rejects_bare_target :
  parseTestSpecifier "JustATarget" = inl (invalid_test_specifier "JustATarget")
  /\ parseTestSpecifier "/testOnly()" = inl (invalid_test_specifier "/testOnly()").
Proof. split; reflexivity. Qed.

(** ** Issues: [summarizeIssues], [dedupeIssues], [firstString] *)

Module Issues.

Record IssueEntry : Type := {
  path : option string;
  message : string;
  severity : option string;
  line : option jsnum;
  column : option jsnum
}.

Record Summary : Type := {
  total : nat;
  error : nat;
  warning : nat;
  remark : nat;
  unknown : nat
}.

(** [s.includes(needle)] *)
Definition includes (s needle : string) : bool := contains needle s.

(** One turn of the loop of [summarizeIssues]. *)
Definition tally (summary : Summary) (issue : IssueEntry) : Summary :=
  let severity := match severity issue with Some s => s | None => "unknown" end in
  if includes severity "error" then
    {| total := total summary; error := S (error summary); warning := warning summary;
       remark := remark summary; unknown := unknown summary |}
  else if includes severity "warning" then
    {| total := total summary; error := error summary; warning := S (warning summary);
       remark := remark summary; unknown := unknown summary |}
  else if orb (includes severity "remark") (includes severity "note") then
    {| total := total summary; error := error summary; warning := warning summary;
       remark := S (remark summary); unknown := unknown summary |}
  else
    {| total := total summary; error := error summary; warning := warning summary;
       remark := remark summary; unknown := S (unknown summary) |}.

Definition summarizeIssues (issues : list IssueEntry) : Summary :=
  fold_left tally issues
    {| total := List.length issues; error := 0; warning := 0; remark := 0; unknown := 0 |}.

Section Dedupe.

(** Rendering of a number inside a template literal. *)
Variable Number_toString : jsnum -> string.

(** The key under which [dedupeIssues] remembers an issue. *)
Definition issue_key (issue : IssueEntry) : string :=
  match path issue with Some p => p | None => "<unknown>" end
  ++ "|" ++ match severity issue with Some s => s | None => "unknown" end
  ++ "|" ++ Number_toString (match line issue with Some n => n | None => Finite 0 end)
  ++ "|" ++ Number_toString (match column issue with Some n => n | None => Finite 0 end)
  ++ "|" ++ message issue.

(** [seen.has(key)] *)
Definition has (seen : list string) (key : string) : bool :=
  existsb (String.eqb key) seen.

(** The loop of [dedupeIssues], with its two accumulators. *)
Fixpoint dedupe_loop (seen : list string) (result : list IssueEntry)
    (issues : list IssueEntry) : list IssueEntry :=
  match issues with
  | [] => result
  | issue :: rest =>
      if has seen (issue_key issue) then dedupe_loop seen result rest
      else dedupe_loop (issue_key issue :: seen) (result ++ [issue])%list rest
  end.

Definition dedupeIssues (issues : list IssueEntry) : list IssueEntry :=
  dedupe_loop [] [] issues.

End Dedupe.

(** [record[key]] on an object given by its fields. *)
Definition property (record : list (string * json)) (key : string) : option json :=
  field key record.

Fixpoint firstString (record : list (string * json)) (keys : list string)
    : option string :=
  match keys with
  | [] => None
  | key :: rest =>
      match property record key with
      | Some (JStr value) =>
          if negb (String.eqb (trim value) "") then Some value
          else firstString record rest
      | _ => firstString record rest
      end
  end.

End Issues.

(** *** [summarizeIssues] *)

Definition counted (s : Issues.Summary) : nat :=
  (Issues.error s + Issues.warning s + Issues.remark s + Issues.unknown s)%nat.

Lemma tally_counts_one (s : Issues.Summary) (issue : Issues.IssueEntry) :
  Issues.total (Issues.tally s issue) = Issues.total s
  /\ counted (Issues.tally s issue) = S (counted s).
Proof.
  unfold Issues.tally, counted.
  destruct (Issues.includes _ "error"); simpl; [split; [reflexivity | lia] | ].
  destruct (Issues.includes _ "warning"); simpl; [split; [reflexivity | lia] | ].
  destruct (orb _ _); simpl; split; try reflexivity; lia.
Qed.

Lemma fold_tally_counts (issues : list Issues.IssueEntry) :
  forall s,
    Issues.total (fold_left Issues.tally issues s) = Issues.total s
    /\ counted (fold_left Issues.tally issues s) = (counted s + List.length issues)%nat.
Proof.
  induction issues as [ | issue rest IH]; intros s; simpl.
  - split; [reflexivity | lia].
  - destruct (IH (Issues.tally s issue)) as [Ht Hc].
    destruct (tally_counts_one s issue) as [Ht1 Hc1].
    rewrite Ht, Hc, Ht1, Hc1. split; [reflexivity | lia].
Qed.

(** Every issue is counted once: the four severity counters of
    [summarizeIssues] add up to [total], which is the number of
    issues. *)
Theorem summarizeIssues_counts_every_issue (issues : list Issues.IssueEntry) :
  Issues.total (Issues.summarizeIssues issues) = List.length issues
  /\ (Issues.error (Issues.summarizeIssues issues)
      + Issues.warning (Issues.summarizeIssues issues)
      + Issues.remark (Issues.summarizeIssues issues)
      + Issues.unknown (Issues.summarizeIssues issues))%nat
     = Issues.total (Issues.summarizeIssues issues).
Proof.
  unfold Issues.summarizeIssues.
  destruct (fold_tally_counts issues
              {| Issues.total := List.length issues; Issues.error := 0;
                 Issues.warning := 0; Issues.remark := 0; Issues.unknown := 0 |})
    as [Ht Hc].
  split; [exact Ht | ]. rewrite Ht. exact Hc.
Qed.

Definition add_summaries (a b : Issues.Summary) : Issues.Summary :=
  {| Issues.total := Issues.total a + Issues.total b;
     Issues.error := Issues.error a + Issues.error b;
     Issues.warning := Issues.warning a + Issues.warning b;
     Issues.remark := Issues.remark a + Issues.remark b;
     Issues.unknown := Issues.unknown a + Issues.unknown b |}.

Lemma tally_add (a b : Issues.Summary) (issue : Issues.IssueEntry) :
  Issues.tally (add_summaries a b) issue = add_summaries a (Issues.tally b issue).
Proof.
  unfold Issues.tally, add_summaries.
  destruct (Issues.includes _ "error"); simpl; [f_equal; lia | ].
  destruct (Issues.includes _ "warning"); simpl; [f_equal; lia | ].
  destruct (orb _ _); simpl; f_equal; lia.
Qed.

Lemma fold_tally_add (issues : list Issues.IssueEntry) :
  forall a b,
    fold_left Issues.tally issues (add_summaries a b)
    = add_summaries a (fold_left Issues.tally issues b).
Proof.
  induction issues as [ | issue rest IH]; intros a b; simpl.
  - reflexivity.
  - rewrite tally_add. apply IH.
Qed.

Definition no_issues (n : nat) : Issues.Summary :=
  {| Issues.total := n; Issues.error := 0; Issues.warning := 0;
     Issues.remark := 0; Issues.unknown := 0 |}.

Lemma add_summaries_zero (s : Issues.Summary) : add_summaries s (no_issues 0) = s.
Proof. destruct s. unfold add_summaries. simpl. f_equal; lia. Qed.

Lemma fold_tally_from (issues : list Issues.IssueEntry) (s : Issues.Summary) :
  fold_left Issues.tally issues s
  = add_summaries s (fold_left Issues.tally issues (no_issues 0)).
Proof. rewrite <- fold_tally_add, add_summaries_zero. reflexivity. Qed.

(** Summaries add up: the summary of two lists of issues put together
    is the counter-wise sum of their summaries. *)
Theorem summarizeIssues_append (a b : list Issues.IssueEntry) :
  Issues.summarizeIssues (a ++ b)
  = add_summaries (Issues.summarizeIssues a) (Issues.summarizeIssues b).
Proof.
  unfold Issues.summarizeIssues. rewrite fold_left_app, length_app.
  fold (no_issues (List.length a + List.length b)).
  fold (no_issues (List.length a)). fold (no_issues (List.length b)).
  rewrite (fold_tally_from b (fold_left Issues.tally a _)).
  rewrite (fold_tally_from a (no_issues (List.length a + List.length b))).
  rewrite (fold_tally_from a (no_issues (List.length a))).
  rewrite (fold_tally_from b (no_issues (List.length b))).
  unfold add_summaries, no_issues. simpl. f_equal; lia.
Qed.

(** *** [dedupeIssues] *)

Section DedupeProperties.

Variable Number_toString : jsnum -> string.

Let key := Issues.issue_key Number_toString.
Let loop := Issues.dedupe_loop Number_toString.

Lemma has_In (seen : list string) (k : string) :
  Issues.has seen k = true <-> In k seen.
Proof.
  unfold Issues.has. rewrite existsb_exists. split.
  - intros [x [Hx He]]. apply String.eqb_eq in He. subst x. exact Hx.
  - intros H. exists k. split; [exact H | apply String.eqb_refl].
Qed.

Lemma dedupe_loop_result (issues : list Issues.IssueEntry) :
  forall seen result, loop seen result issues = (result ++ loop seen [] issues)%list.
Proof.
  induction issues as [ | x rest IH]; intros seen result; simpl.
  - rewrite app_nil_r. reflexivity.
  - destruct (Issues.has seen (Issues.issue_key Number_toString x)).
    + apply IH.
    + rewrite (IH _ (result ++ [x])%list), (IH _ ([] ++ [x])%list).
      rewrite <- app_assoc. reflexivity.
Qed.

Lemma dedupe_loop_step (seen : list string) (x : Issues.IssueEntry)
    (rest : list Issues.IssueEntry) :
  loop seen [] (x :: rest)
  = if Issues.has seen (key x) then loop seen [] rest
    else x :: loop (key x :: seen) [] rest.
Proof.
  unfold loop, key. simpl.
  destruct (Issues.has seen (Issues.issue_key Number_toString x)); [reflexivity | ].
  rewrite dedupe_loop_result. reflexivity.
Qed.

Lemma dedupe_loop_sound (issues : list Issues.IssueEntry) :
  forall seen,
    NoDup (map key (loop seen [] issues))
    /\ (forall x, In x (loop seen [] issues) -> ~ In (key x) seen /\ In x issues)
    /\ (forall x, In x issues ->
          In (key x) seen \/ In (key x) (map key (loop seen [] issues))).
Proof.
  induction issues as [ | x rest IH]; intros seen.
  - simpl. split; [constructor | split; intros y []].
  - rewrite dedupe_loop_step.
    destruct (Issues.has seen (key x)) eqn:Hh.
    + destruct (IH seen) as [Hnd [Hin Hcov]].
      split; [exact Hnd | split].
      * intros y Hy. destruct (Hin y Hy) as [Ha Hb]. split; [exact Ha | right; exact Hb].
      * intros y [<- | Hy]; [left; apply has_In; exact Hh | apply Hcov; exact Hy].
    + assert (Hx : ~ In (key x) seen).
      { intros Hc. apply has_In in Hc. rewrite Hc in Hh. discriminate Hh. }
      destruct (IH (key x :: seen)) as [Hnd [Hin Hcov]].
      split; [ | split].
      * simpl. constructor; [ | exact Hnd].
        intros Hc. apply in_map_iff in Hc as [y [Hk Hy]].
        destruct (Hin y Hy) as [Ha _]. apply Ha. left. symmetry. exact Hk.
      * intros y [<- | Hy]; [split; [exact Hx | left; reflexivity] | ].
        destruct (Hin y Hy) as [Ha Hb].
        split; [intros Hc; apply Ha; right; exact Hc | right; exact Hb].
      * intros y [<- | Hy]; [right; left; reflexivity | ].
        destruct (Hcov y Hy) as [[Hk | Hs] | Hm].
        -- right. left. exact Hk.
        -- left. exact Hs.
        -- right. right. exact Hm.
Qed.

Lemma dedupe_loop_distinct (issues : list Issues.IssueEntry) :
  forall seen,
    NoDup (map key issues) ->
    (forall x, In x issues -> ~ In (key x) seen) ->
    loop seen [] issues = issues.
Proof.
  induction issues as [ | x rest IH]; intros seen Hnd Hfresh.
  - reflexivity.
  - rewrite dedupe_loop_step.
    simpl in Hnd. inversion Hnd as [ | ? ? Hx Hrest]; subst.
    destruct (Issues.has seen (key x)) eqn:Hh.
    + apply has_In in Hh. exfalso. apply (Hfresh x); [left; reflexivity | exact Hh].
    + f_equal. apply IH; [exact Hrest | ].
      intros y Hy [Hk | Hs].
      * apply Hx. rewrite Hk. apply in_map. exact Hy.
      * apply (Hfresh y); [right; exact Hy | exact Hs].
Qed.

Lemma dedupe_loop_first (a : list Issues.IssueEntry) :
  forall seen x b,
    ~ In (key x) seen ->
    ~ In (key x) (map key a) ->
    In x (loop seen [] (a ++ x :: b)).
Proof.
  induction a as [ | y a' IH]; intros seen x b Hseen Ha.
  - simpl app. rewrite dedupe_loop_step.
    destruct (Issues.has seen (key x)) eqn:Hh; [ | left; reflexivity].
    apply has_In in Hh. contradiction.
  - simpl app. rewrite dedupe_loop_step.
    assert (Hne : key y <> key x) by (intros Hc; apply Ha; left; exact Hc).
    assert (Ha' : ~ In (key x) (map key a')) by (intros Hc; apply Ha; right; exact Hc).
    destruct (Issues.has seen (key y)).
    + apply IH; assumption.
    + right. apply IH; [ | exact Ha'].
      intros [Hc | Hc]; [exact (Hne Hc) | exact (Hseen Hc)].
Qed.

End DedupeProperties.

(** [dedupeIssues] returns issues of its input with pairwise different
    keys, and loses no key: every issue of the input has an issue with
    the same key in the result. *)
Theorem dedupeIssues_distinct_and_complete
    (Number_toString : jsnum -> string) (issues : list Issues.IssueEntry) :
  let key := Issues.issue_key Number_toString in
  let result := Issues.dedupeIssues Number_toString issues in
  NoDup (map key result)
  /\ (forall x, In x result -> In x issues)
  /\ (forall x, In x issues -> In (key x) (map key result)).
Proof.
  intros key result.
  destruct (dedupe_loop_sound Number_toString issues []) as [Hnd [Hin Hcov]].
  split; [exact Hnd | split].
  - intros x Hx. apply (Hin x Hx).
  - intros x Hx. destruct (Hcov x Hx) as [[] | H]. exact H.
Qed.

(** Of several issues with the same key, [dedupeIssues] keeps the
    first: an issue whose key no earlier issue has is in the result. *)
Theorem dedupeIssues_keeps_first
    (Number_toString : jsnum -> string)
    (earlier : list Issues.IssueEntry) (x : Issues.IssueEntry)
    (later : list Issues.IssueEntry) :
  ~ In (Issues.issue_key Number_toString x)
       (map (Issues.issue_key Number_toString) earlier) ->
  In x (Issues.dedupeIssues Number_toString (earlier ++ x :: later)).
Proof.
  intros H. apply (dedupe_loop_first Number_toString earlier [] x later); [ | exact H].
  intros [].
Qed.

(** A list whose issues have pairwise different keys is returned as it
    is; so deduplicating twice gives what deduplicating once gives. *)
Theorem dedupeIssues_idempotent
    (Number_toString : jsnum -> string) (issues : list Issues.IssueEntry) :
  (NoDup (map (Issues.issue_key Number_toString) issues) ->
     Issues.dedupeIssues Number_toString issues = issues)
  /\ Issues.dedupeIssues Number_toString (Issues.dedupeIssues Number_toString issues)
     = Issues.dedupeIssues Number_toString issues.
Proof.
  assert (H : forall l, NoDup (map (Issues.issue_key Number_toString) l) ->
                        Issues.dedupeIssues Number_toString l = l).
  { intros l Hnd. apply (dedupe_loop_distinct Number_toString l [] Hnd).
    intros x _ []. }
  split; [apply H | ].
  apply H. apply (dedupe_loop_sound Number_toString issues []).
Qed.

Definition render_number (n : jsnum) : string :=
  match n with
  | Finite q => if Qeq_bool q (inject_Z 12) then "12" else "0"
  | _ => "NaN"
  end.

Definition cannot_find_type : Issues.IssueEntry :=
  {| Issues.path := Some "App/Main.swift"; Issues.message := "Cannot find type";
     Issues.severity := Some "error"; Issues.line := Some (Finite 12);
     Issues.column := None |}.

Definition unused_variable : Issues.IssueEntry :=
  {| Issues.path := Some "App/Main.swift"; Issues.message := "Unused variable";
     Issues.severity := Some "warning"; Issues.line := Some (Finite 12);
     Issues.column := None |}.

Lemma dedupeIssues_keeps_first_witness :
  In unused_variable
     (Issues.dedupeIssues render_number
        ([cannot_find_type; cannot_find_type] ++ unused_variable :: [unused_variable])).
Proof.
  apply (dedupeIssues_keeps_first render_number [cannot_find_type; cannot_find_type]
           unused_variable [unused_variable]).
  simpl. intros [H | [H | []]]; discriminate H.
Defined.

Example dedupeIssues_example :
  Issues.dedupeIssues render_number
    [cannot_find_type; unused_variable; cannot_find_type; unused_variable]
  = [cannot_find_type; unused_variable].
Proof. reflexivity. Qed.

(** *** [firstString] *)

(** When [firstString] finds a value, it is the string under the
    earliest of the keys that holds a string which is not blank; the
    value itself is returned untrimmed. *)
Theorem firstString_earliest_non_blank
    (record : list (string * json)) (keys : list string) (value : string) :
  Issues.firstString record keys = Some value ->
  exists skipped key rest,
    keys = (skipped ++ key :: rest)%list
    /\ Issues.property record key = Some (JStr value)
    /\ trim value <> ""
    /\ forall k v, In k skipped -> Issues.property record k = Some (JStr v) -> trim v = "".
Proof.
  induction keys as [ | key rest IH]; simpl; [discriminate | ].
  intros H.
  assert (Hskip : Issues.firstString record rest = Some value ->
                  (forall v, Issues.property record key = Some (JStr v) -> trim v = "") ->
                  exists skipped key0 rest0,
                    key :: rest = (skipped ++ key0 :: rest0)%list
                    /\ Issues.property record key0 = Some (JStr value)
                    /\ trim value <> ""
                    /\ forall k v, In k skipped ->
                                   Issues.property record k = Some (JStr v) -> trim v = "").
  { intros Hrest Hblank. destruct (IH Hrest) as [skipped [k0 [rest0 [Hk [Hp [Ht Hs]]]]]].
    exists (key :: skipped), k0, rest0. rewrite Hk. repeat split; try assumption.
    intros k v' [<- | Hin] Hv; [apply Hblank; exact Hv | apply (Hs k v' Hin Hv)]. }
  destruct (Issues.property record key) as [[ | | | s | | ] | ] eqn:Hp;
    try (apply Hskip; [exact H | intros v Hv; discriminate Hv]).
  destruct (String.eqb (trim s) "") eqn:Hb; simpl in H.
  - apply Hskip; [exact H | ].
    intros v Hv. injection Hv as <-. apply String.eqb_eq. exact Hb.
  - injection H as <-. exists [], key, rest. repeat split.
    + exact Hp.
    + apply String.eqb_neq. exact Hb.
    + intros k v [].
Qed.

Definition titled_record : list (string * json) :=
  [("message", JStr "   "); ("line", JNum 12); ("title", JStr " Build failed ")].

Lemma firstString_earliest_non_blank_witness :
  exists skipped key rest,
    ["message"; "diagnostic"; "title"; "text"] = (skipped ++ key :: rest)%list
    /\ Issues.property titled_record key = Some (JStr " Build failed ")
    /\ trim " Build failed " <> ""
    /\ forall k v, In k skipped ->
                   Issues.property titled_record k = Some (JStr v) -> trim v = "".
Proof.
  apply (firstString_earliest_non_blank titled_record
           ["message"; "diagnostic"; "title"; "text"] " Build failed ").
  reflexivity.
Defined.

(** [firstString] finds nothing exactly when none of the keys holds a
    string that is not blank: a missing key, a value that is not a
    string, and a string of white space are all passed over. *)
Theorem firstString_none_iff (record : list (string * json)) (keys : list string) :
  Issues.firstString record keys = None
  <-> forall k v, In k keys -> Issues.property record k = Some (JStr v) -> trim v = "".
Proof.
  induction keys as [ | key rest IH]; simpl.
  - split; [intros _ k v [] | reflexivity].
  - destruct (Issues.property record key) as [[ | | | s | | ] | ] eqn:Hp;
      try (rewrite IH; split;
           [ intros H k v [<- | Hin] Hv; [rewrite Hp in Hv; discriminate Hv | apply (H k v Hin Hv)]
           | intros H k v Hin Hv; apply (H k v (or_intror Hin) Hv) ]).
    destruct (String.eqb (trim s) "") eqn:Hb; simpl.
    + rewrite IH. split.
      * intros H k v [<- | Hin] Hv.
        -- rewrite Hp in Hv. injection Hv as <-. apply String.eqb_eq. exact Hb.
        -- apply (H k v Hin Hv).
      * intros H k v Hin Hv. apply (H k v (or_intror Hin) Hv).
    + split; [discriminate | ].
      intros H. specialize (H key s (or_introl eq_refl) Hp).
      apply String.eqb_neq in Hb. contradiction.
Qed.

(** ** [unwrapResult] *)

(** A call result: what [structuredContent()] and [json()] return and
    what [raw] holds.  [None] is [undefined], [Some JNull] is [null]. *)
Record CallResult : Type := {
  structuredContent : option json;
  json_ : option json;
  raw : option json
}.

Definition unwrapResult (result : CallResult) : option json :=
  match structuredContent result with
  | Some JNull | None =>
      match json_ result with
      | Some JNull => raw result
      | other => other
      end
  | structured => structured
  end.

(** [undefined] or [null]. *)
Definition nullish (x : option json) : bool :=
  match x with
  | None | Some JNull => true
  | _ => false
  end.

(** [unwrapResult] returns one of the three representations, the
    structured content whenever that is a value.  Its result is a value
    exactly when the structured content is one, or [json()] is one, or
    [json()] is [null] and [raw] is a value: when [json()] is
    [undefined], [raw] is not consulted. *)
Theorem unwrapResult_value_iff (result : CallResult) :
  (unwrapResult result = structuredContent result
   \/ unwrapResult result = json_ result
   \/ unwrapResult result = raw result)
  /\ (nullish (structuredContent result) = false ->
      unwrapResult result = structuredContent result)
  /\ (nullish (unwrapResult result) = false
      <-> nullish (structuredContent result) = false
          \/ nullish (json_ result) = false
          \/ (json_ result = Some JNull /\ nullish (raw result) = false)).
Proof.
  destruct result as [[[ | | | | | ] | ] [[ | | | | | ] | ] r]; unfold unwrapResult; simpl;
    (split; [ auto | split; [ intros H; try discriminate H; reflexivity | ] ]);
    (split;
     [ intros H; try discriminate H; auto
     | intros [H | [H | [H1 H2]]]; try discriminate; try reflexivity; auto ]).
Qed.
